(** * pycbc.workflow.summaryplots: job-graph assembly for the summary plots

    A shallow embedding of [pycbc/workflow/summaryplots.py].  The module
    builds fragments of a workflow DAG: each routine creates nodes for an
    executable, attaches their command-line options, registers them with the
    workflow and makes every input file's producer a parent of each node.

    The Python objects that the routines mutate (the workflow and its DAG,
    the configuration, the file system) are threaded explicitly; routines
    that can raise run in a state monad whose state survives the exception,
    as the Python heap does. *)

From Stdlib Require Import ZArith Ascii String DecimalString.
From stdpp Require Import gmap strings list fin_maps.

Open Scope string_scope.
Open Scope list_scope.

(** ** Python strings *)

(** [str.upper] and [str.lower] on byte strings: only the ASCII letters
    change. *)
Definition ascii_upper (c : ascii) : ascii :=
  let n := N_of_ascii c in
  if ((97 <=? n) && (n <=? 122))%N then ascii_of_N (n - 32) else c.

Definition ascii_lower (c : ascii) : ascii :=
  let n := N_of_ascii c in
  if ((65 <=? n) && (n <=? 90))%N then ascii_of_N (n + 32) else c.

Fixpoint upper (s : string) : string :=
  match s with
  | EmptyString => EmptyString
  | String c s' => String (ascii_upper c) (upper s')
  end.

Fixpoint lower (s : string) : string :=
  match s with
  | EmptyString => EmptyString
  | String c s' => String (ascii_lower c) (lower s')
  end.

(** [''.join(l)] *)
Definition join (l : list string) : string := String.concat "" l.

(** [str(n)] for an integer. *)
Definition str (z : Z) : string := NilZero.string_of_int (Z.to_int z).

(** ** itertools.combinations

    [combinations l r] lists the [r]-length subsequences of [l] in the order
    of [itertools.combinations(l, r)]: lexicographic in the positions of the
    chosen elements, so every subsequence starting with the head of [l]
    comes before those that skip it.  Nothing is produced when [r] exceeds
    the length of [l]. *)
Fixpoint combinations {A : Type} (l : list A) (r : nat) : list (list A) :=
  match r with
  | O => [[]]
  | S r' =>
      match l with
      | [] => []
      | x :: xs => map (cons x) (combinations xs r') ++ combinations xs r
      end
  end.

(** The binomial coefficient C(n, k), by Pascal's rule. *)
Fixpoint binom (n k : nat) : nat :=
  match k with
  | O => 1
  | S k' =>
      match n with
      | O => 0
      | S n' => binom n' k' + binom n' k
      end
  end.

(** [sum_range f a b] is the sum of [f i] for [a <= i <= b] (zero when
    [b < a]). *)
Definition sum_range (f : nat -> nat) (a b : nat) : nat :=
  sum_list_with f (seq a (S b - a)).

(** ** The workflow-core objects *)

(** Identifier of a job of the DAG.  The DAG numbers the jobs it is given;
    the number stands for the identity of the Python [dax.Job] object and
    is what a dependency of the written DAX refers to. *)
Definition JobId := nat.

(** Modelled from the spec: the [File] class of pycbc.workflow.core, which
    is not under src/.  A file is a produced-artifact record with a storage
    path and a back-reference to the node that produces it;
    [f.node._dax_node] is the DAG job of that node. *)
Record File := mkFile {
  storage_path : string;
  node_dax_node : JobId
}.

Definition FileList := list File.

(** Modelled from the spec: the [Executable] class of pycbc.workflow.core,
    which is not under src/.  The descriptor binds a job name to its
    universe, the participating detectors, the output directory and the
    tags; [ifo_list] is the detector list it was given and [ifo_string]
    their concatenation. *)
Record Executable := mkExecutable {
  name : string;
  universe : string;
  ifo_list : list string;
  ifo_string : string;
  out_dir : string;
  exe_tags : list string
}.

(** A value passed to [add_opt]: a string or an integer (the GPS times). *)
Inductive OptValue :=
| VStr (s : string)
| VInt (z : Z).

(** Modelled from the spec: the [Node] class of pycbc.workflow.core, which
    is not under src/.  A node is one invocation of an executable with the
    options attached so far, in the order of attachment, and the files it
    declares as produced.  An option is a flag and, unless the flag stands
    alone, its value. *)
Record Node := mkNode {
  executable : Executable;
  _options : list (string * option OptValue);
  _outputs : FileList
}.

(** [dax.Dependency(parent=..., child=...)] *)
Record Dependency := mkDependency {
  parent : JobId;
  child : JobId
}.

(** Modelled from the spec: the DAG object owned by the external workflow
    engine.  It keeps the registered jobs with their identifiers, in the
    order of registration, the dependency edges in the order they were
    added, and the next free job identifier. *)
Record ADAG := mkADAG {
  jobs : list (JobId * Node);
  dependencies : list Dependency;
  sequence : nat
}.

(** [ConfigParser]: sections of options. *)
Definition Config := gmap string (gmap string string).

Record Workflow := mkWorkflow {
  cp : Config;
  ifos : list string;
  analysis_time : Z * Z;
  _adag : ADAG
}.

(** Modelled from the spec: the constructor
    [Executable(cp, name, universe, ifos, out_dir, tags)] of
    pycbc.workflow.core, which is not under src/.  It is created once per
    call of a stage and keeps what it is given. *)
Definition Executable_init (_ : Config) (name universe : string)
    (ifos : list string) (out_dir : string) (tags : list string) : Executable :=
  {| name := name; universe := universe; ifo_list := ifos;
     ifo_string := join ifos; out_dir := out_dir; exe_tags := tags |}.

(** Modelled from the spec: the constructor [Node(executable)] of
    pycbc.workflow.core, which is not under src/: an invocation of the
    executable with no option attached and no file declared yet. *)
Definition Node_init (exe : Executable) : Node :=
  {| executable := exe; _options := []; _outputs := [] |}.

(** Modelled from the spec: [node.add_opt(opt, value)] and
    [node.add_opt(opt)] of pycbc.workflow.core, which is not under src/: the
    option is attached after those already there. *)
Definition add_opt (node : Node) (opt : string) (value : option OptValue) : Node :=
  {| executable := executable node;
     _options := _options node ++ [(opt, value)];
     _outputs := _outputs node |}.

(** Modelled from the spec: the property [node.output_files], the files the
    node declares as produced. *)
Definition output_files (node : Node) : FileList := _outputs node.

(** Modelled from the spec: [adag.addJob] of the external workflow engine.
    The job takes the next identifier of the DAG. *)
Definition addJob (g : ADAG) (node : Node) : JobId * ADAG :=
  (sequence g,
   {| jobs := jobs g ++ [(sequence g, node)];
      dependencies := dependencies g;
      sequence := S (sequence g) |}).

(** Modelled from the spec: [adag.addDependency(dep)] of the external
    workflow engine: the edge is recorded after those already there. *)
Definition addDependency (g : ADAG) (dep : Dependency) : ADAG :=
  {| jobs := jobs g;
     dependencies := dependencies g ++ [dep];
     sequence := sequence g |}.

Definition with_adag (w : Workflow) (g : ADAG) : Workflow :=
  {| cp := cp w; ifos := ifos w; analysis_time := analysis_time w; _adag := g |}.

Definition with_cp (w : Workflow) (c : Config) : Workflow :=
  {| cp := c; ifos := ifos w; analysis_time := analysis_time w; _adag := _adag w |}.

(** Modelled from the spec: [workflow.add_node(node)] of
    pycbc.workflow.core, which is not under src/.  It registers the node's
    job with the DAG; the result carries the identifier under which
    [node._dax_node] is known from then on. *)
Definition add_node (w : Workflow) (node : Node) : JobId * Workflow :=
  let '(j, g) := addJob (_adag w) node in (j, with_adag w g).

(** The loop that closes every routine:
[[
    for f in input_files:
        dep = dax.Dependency(parent=f.node._dax_node, child=node._dax_node)
        workflow._adag.addDependency(dep)
]] *)
Definition add_parents (w : Workflow) (input_files : FileList) (node_dax : JobId)
    : Workflow :=
  foldl (fun w f =>
           let dep := {| parent := node_dax_node f; child := node_dax |} in
           with_adag w (addDependency (_adag w) dep))
        w input_files.

(** ** The plot stages *)

Definition setup_plotinspiral (workflow : Workflow) (input_files : FileList)
    (cache_filename inspiral_cachepattern output_dir : string)
    (tags : list string) : FileList * Workflow :=
  let plot_files : FileList := [] in
  let plotinspiral_job :=
    Executable_init (cp workflow) "plotinspiral" "vanilla" (ifos workflow)
                    output_dir tags in
  let workflow :=
    foldl (fun workflow tag =>
      foldl (fun workflow ifo =>
        let node := Node_init plotinspiral_job in
        let node := add_opt node "--gps-start-time" (Some (VInt (analysis_time workflow).1)) in
        let node := add_opt node "--gps-end-time" (Some (VInt (analysis_time workflow).2)) in
        let node := add_opt node "--cache-file" (Some (VStr cache_filename)) in
        let node := add_opt node "--ifo-times" (Some (VStr ifo)) in
        let node := add_opt node "--ifo-tag" (Some (VStr ("FIRST_" +:+ ifo))) in
        let node := add_opt node "--user-tag" (Some (VStr (upper tag +:+ "_SUMMARY_PLOTS"))) in
        let node := add_opt node "--output-path" (Some (VStr output_dir)) in
        let node := add_opt node "--trig-pattern" (Some (VStr inspiral_cachepattern)) in
        let node := add_opt node "--enable-output" None in
        let '(node_dax, workflow) := add_node workflow node in
        add_parents workflow input_files node_dax)
      workflow (ifo_list plotinspiral_job))
    workflow tags in
  (plot_files, workflow).

Definition setup_plotnumtemplates (workflow : Workflow) (input_files : FileList)
    (cache_filename tmpltbank_cachepattern output_dir : string)
    (tags : list string) : FileList * Workflow :=
  let plot_files : FileList := [] in
  let plotnumtemplates_job :=
    Executable_init (cp workflow) "plotnumtemplates" "vanilla" (ifos workflow)
                    output_dir tags in
  let workflow :=
    foldl (fun workflow tag =>
      let node := Node_init plotnumtemplates_job in
      let node := add_opt node "--gps-start-time" (Some (VInt (analysis_time workflow).1)) in
      let node := add_opt node "--gps-end-time" (Some (VInt (analysis_time workflow).2)) in
      let node := add_opt node "--cache-file" (Some (VStr cache_filename)) in
      let node := add_opt node "--ifo-times" (Some (VStr (ifo_string (executable node)))) in
      let node := add_opt node "--user-tag" (Some (VStr (upper tag +:+ "_SUMMARY_PLOTS"))) in
      let node := add_opt node "--output-path" (Some (VStr output_dir)) in
      let node := add_opt node "--bank-pattern" (Some (VStr tmpltbank_cachepattern)) in
      let node := add_opt node "--enable-output" None in
      let '(node_dax, workflow) := add_node workflow node in
      add_parents workflow input_files node_dax)
    workflow tags in
  (plot_files, workflow).

(** The detector subsets of [setup_plotthinca]:
[[
    ifo_combos = []
    for n in xrange(len(plotthinca_job.ifo_list)+1):
        for ifo_list in itertools.combinations(plotthinca_job.ifo_list, n+2):
            ifo_combos.append(ifo_list)
]] *)
Definition ifo_combos_of (ifo_list : list string) : list (list string) :=
  foldl (fun (ifo_combos : list (list string)) n =>
           foldl (fun ifo_combos ifo_list => ifo_combos ++ [ifo_list])
                 ifo_combos (combinations ifo_list (n + 2)))
        [] (seq 0 (length ifo_list + 1)).

Definition setup_plotthinca (workflow : Workflow) (input_files : FileList)
    (cache_filename coinc_cachepattern slide_cachepattern output_dir : string)
    (tags : list string) : FileList * Workflow :=
  let plot_files : FileList := [] in
  let plotthinca_job :=
    Executable_init (cp workflow) "plotthinca" "vanilla" (ifos workflow)
                    output_dir tags in
  let ifo_combos := ifo_combos_of (ifo_list plotthinca_job) in
  let workflow :=
    foldl (fun workflow tag =>
      foldl (fun workflow ifo_list =>
        let ifo_string := join ifo_list in
        let node := Node_init plotthinca_job in
        let node := add_opt node "--gps-start-time" (Some (VInt (analysis_time workflow).1)) in
        let node := add_opt node "--gps-end-time" (Some (VInt (analysis_time workflow).2)) in
        let node := add_opt node "--cache-file" (Some (VStr cache_filename)) in
        let node := add_opt node "--ifo-times" (Some (VStr ifo_string)) in
        let node := add_opt node "--ifo-tag" (Some (VStr ("SECOND_" +:+ ifo_string))) in
        let node :=
          foldl (fun node ifo =>
                   add_opt node ("--" +:+ lower ifo +:+ "-triggers") (Some (VStr "")))
                node ifo_list in
        let node := add_opt node "--user-tag" (Some (VStr (upper tag +:+ "_SUMMARY_PLOTS"))) in
        let node := add_opt node "--output-path" (Some (VStr output_dir)) in
        let node := add_opt node "--coinc-pattern" (Some (VStr coinc_cachepattern)) in
        let node := add_opt node "--slide-pattern" (Some (VStr slide_cachepattern)) in
        let node := add_opt node "--enable-output" None in
        let '(node_dax, workflow) := add_node workflow node in
        add_parents workflow input_files node_dax)
      workflow ifo_combos)
    workflow tags in
  (plot_files, workflow).

Definition setup_plotinspiralrange (workflow : Workflow) (input_files : FileList)
    (cache_filename tmpltbank_cachepattern inspiral_cachepattern output_dir : string)
    (tags : list string) : FileList * Workflow :=
  let plot_files : FileList := [] in
  let plotinspiralrange_job :=
    Executable_init (cp workflow) "plotinspiralrange" "vanilla" (ifos workflow)
                    output_dir tags in
  let workflow :=
    foldl (fun workflow tag =>
      let node := Node_init plotinspiralrange_job in
      let node := add_opt node "--gps-start-time" (Some (VInt (analysis_time workflow).1)) in
      let node := add_opt node "--gps-end-time" (Some (VInt (analysis_time workflow).2)) in
      let node := add_opt node "--cache-file" (Some (VStr cache_filename)) in
      let node := add_opt node "--ifo-times" (Some (VStr (ifo_string (executable node)))) in
      let node := add_opt node "--user-tag" (Some (VStr (upper tag +:+ "_SUMMARY_PLOTS"))) in
      let node := add_opt node "--output-path" (Some (VStr output_dir)) in
      let node := add_opt node "--bank-pattern" (Some (VStr tmpltbank_cachepattern)) in
      let node := add_opt node "--trig-pattern" (Some (VStr inspiral_cachepattern)) in
      let node := add_opt node "--enable-output" None in
      let '(node_dax, workflow) := add_node workflow node in
      add_parents workflow input_files node_dax)
    workflow tags in
  (plot_files, workflow).

(** ** Exceptions, the file system and the outside world *)

Inductive Exception :=
| OSError
| IOError
| NoSectionError
| NoOptionError
| ConfigError
| CalledProcessError.

Inductive Result (A : Type) :=
| Ok (a : A)
| Raise (e : Exception).

Arguments Ok {A} a.
Arguments Raise {A} e.

(** What the routines cannot decide themselves: whether a directory may be
    created, whether a URL can be fetched, whether an external program
    exits successfully, and which files a call of it leaves, given the
    command, the directory of its logs and their base name. *)
Record Env := mkEnv {
  mkdir_permitted : string -> bool;
  urlretrieve_ok : string -> bool;
  external_call_ok : list string -> bool;
  external_call_writes : list string -> string -> string -> gset string
}.

(** The mutable state: the workflow object and the paths that exist. *)
Record State := mkState {
  workflow : Workflow;
  fs : gset string
}.

(** A computation returns or raises, and leaves a state behind either way:
    what was mutated before an exception stays mutated. *)
Definition M (A : Type) : Type := State -> Result A * State.

#[global] Instance M_ret : MRet M := fun A a st => (Ok a, st).

#[global] Instance M_bind : MBind M := fun A B f m st =>
  match m st with
  | (Ok a, st') => f a st'
  | (Raise e, st') => (Raise e, st')
  end.

Definition raise {A : Type} (e : Exception) : M A := fun st => (Raise e, st).

Definition get_workflow : M Workflow := fun st => (Ok (workflow st), st).

Definition put_workflow (w : Workflow) : M unit := fun st =>
  (Ok tt, {| workflow := w; fs := fs st |}).

(** Runs a routine that only mutates the workflow. *)
Definition call {A : Type} (f : Workflow -> A * Workflow) : M A := fun st =>
  let '(a, w) := f (workflow st) in (Ok a, {| workflow := w; fs := fs st |}).

(** [os.path.exists(path)] *)
Definition path_exists (path : string) : M bool := fun st =>
  (Ok (bool_decide (path ∈ fs st)), st).

(** [os.path.basename(p)]: what follows the last slash. *)
Fixpoint basename_from (acc p : string) : string :=
  match p with
  | EmptyString => acc
  | String c p' =>
      if Ascii.eqb c "/" then basename_from "" p'
      else basename_from (acc +:+ String c "") p'
  end.

Definition basename (p : string) : string := basename_from "" p.

Fixpoint ends_with_slash (p : string) : bool :=
  match p with
  | EmptyString => false
  | String c EmptyString => Ascii.eqb c "/"
  | String _ p' => ends_with_slash p'
  end.

(** [os.path.join(a, b)] of posixpath. *)
Definition path_join (a b : string) : string :=
  match b with
  | String "/" _ => b
  | _ =>
      if String.eqb a "" || ends_with_slash a then a +:+ b
      else a +:+ "/" +:+ b
  end.

(** The intermediate directories of a path: what stands before each of
    its slashes, the shallowest first.  The root is not one of them, and
    of several slashes in a row only the first counts.  Paths are compared
    as they are spelled. *)
Fixpoint parents_from (acc p : string) : list string :=
  match p with
  | EmptyString => []
  | String c p' =>
      (if Ascii.eqb c "/" && negb (String.eqb acc "") && negb (ends_with_slash acc)
       then [acc] else [])
      ++ parents_from (acc +:+ String c "") p'
  end.

Definition intermediate_dirs (p : string) : list string := parents_from "" p.

(** The directories of [dirs], the deepest first, up to the first that
    exists. *)
Fixpoint take_missing (fs : gset string) (dirs : list string) : list string :=
  match dirs with
  | [] => []
  | d :: dirs' => if bool_decide (d ∈ fs) then [] else d :: take_missing fs dirs'
  end.

(** The intermediate directories that [os.makedirs] has to make,
    the shallowest first. *)
Definition missing_parents (fs : gset string) (p : string) : list string :=
  reverse (take_missing fs (reverse (intermediate_dirs p))).

(** The intermediate directories are made one after the other; one that
    exists by now is passed over; the first that cannot be made ends the
    walk, with the directories made so far. *)
Fixpoint mkdir_each (permitted : string -> bool) (dirs : list string)
    (fs : gset string) : bool * gset string :=
  match dirs with
  | [] => (true, fs)
  | d :: dirs' =>
      if bool_decide (d ∈ fs) then mkdir_each permitted dirs' fs
      else if permitted d then mkdir_each permitted dirs' ({[d]} ∪ fs)
      else (false, fs)
  end.

(** The file system after [os.makedirs(path)], and whether it returned. *)
Definition makedirs_fs (permitted : string -> bool) (fs : gset string)
    (path : string) : bool * gset string :=
  let '(ok, fs1) := mkdir_each permitted (missing_parents fs path) fs in
  if negb ok then (false, fs1)
  else if bool_decide (path ∈ fs1) then (false, fs1)
  else if permitted path then (true, {[path]} ∪ fs1)
  else (false, fs1).

Section Routines.

Variable env : Env.

(** [os.makedirs(path)]: the leaf directory and every intermediate
    directory that is missing are created, the shallowest first.  An
    intermediate directory that exists is passed over; the walk up from
    the leaf stops at the first directory that exists.  [OSError] is raised
    when a directory cannot be created, and the directories made before it
    stay; it is raised as well when the leaf exists already. *)
Definition makedirs (path : string) : M unit := fun st =>
  let r := makedirs_fs (mkdir_permitted env) (fs st) path in
  if r.1 then (Ok tt, {| workflow := workflow st; fs := r.2 |})
  else (Raise OSError, {| workflow := workflow st; fs := r.2 |}).

(** [urllib.urlretrieve(url, filename)]: the document is written to
    [filename], or [IOError] is raised. *)
Definition urlretrieve (url filename : string) : M unit := fun st =>
  if urlretrieve_ok env url
  then (Ok tt, {| workflow := workflow st; fs := {[filename]} ∪ fs st |})
  else (Raise IOError, st).

(** Modelled from the spec: [make_external_call] of pycbc.workflow.core,
    which is not under src/.  A synchronous, blocking subprocess call whose
    standard output and error are logged to the directory [out_dir] under
    the name [out_basename].  The files it leaves, the logs and what the
    program itself writes, are the environment's to say, and they are left
    whether the program succeeds or not; a failure of the program
    propagates to the caller. *)
Definition make_external_call (cmd : list string) (out_dir out_basename : string)
    : M unit := fun st =>
  let st' :=
    {| workflow := workflow st;
       fs := external_call_writes env cmd out_dir out_basename ∪ fs st |} in
  if external_call_ok env cmd then (Ok tt, st') else (Raise CalledProcessError, st').

(** [cp.get(section, option)] *)
Definition cp_get (section opt : string) : M string :=
  w ← get_workflow;
  match cp w !! section with
  | None => raise NoSectionError
  | Some opts =>
      match opts !! opt with
      | None => raise NoOptionError
      | Some v => mret v
      end
  end.

(** [cp.set(section, option, value)] *)
Definition cp_set (section opt value : string) : M unit :=
  w ← get_workflow;
  match cp w !! section with
  | None => raise NoSectionError
  | Some opts => put_workflow (with_cp w (<[section := <[opt := value]> opts]> (cp w)))
  end.

(** Modelled from the spec: [get_opt_tags] of the workflow configuration
    parser, which is not under src/.  A key/tag lookup: the option is read
    from the section itself or else from the sub-section of one of the
    tags; a miss raises. *)
Definition lookup_opt_tags (c : Config) (section opt : string)
    (tags : list string) : option string :=
  match c !! section ≫= (.!! opt) with
  | Some v => Some v
  | None =>
      head (omap (fun tag => c !! (section +:+ "-" +:+ lower tag) ≫= (.!! opt))
                 tags)
  end.

Definition get_opt_tags (section opt : string) (tags : list string) : M string :=
  w ← get_workflow;
  match lookup_opt_tags (cp w) section opt tags with
  | Some v => mret v
  | None => raise ConfigError
  end.

(** Modelled from the spec: the storage path of
    [File(ifo_string, description, segment, extension, directory)] of
    pycbc.workflow.core, which is not under src/: a document in
    [directory] keyed by the detector string, the description and the
    time window. *)
Definition File_storage_path (ifo_string description : string) (segment : Z * Z)
    (extension directory : string) : string :=
  path_join directory
    (ifo_string +:+ "-" +:+ description +:+ "-" +:+ str segment.1 +:+ "-"
       +:+ str (segment.2 - segment.1) +:+ "." +:+ extension).

(** ** The hardware injection page *)

Definition get_hardware_injection_segment_files (output_dir hwinjDefPath : string)
    : M unit :=
  (* create log dir *)
  let log_dir := path_join output_dir "logs" in
  e ← path_exists log_dir;
  (if negb e then makedirs log_dir else mret tt);;
  (* make external call to get segments *)
  exe ← cp_get "executables" "hardware_injection_page";
  workflow ← get_workflow;
  db ← cp_get "workflow-segments" "segments-database-url";
  let hwinjsegFindCall :=
    [ exe;
      "--gps-start-time"; str (analysis_time workflow).1;
      "--gps-end-time"; str (analysis_time workflow).2;
      "--segment-db"; db;
      "--segment-dir"; output_dir;
      "--source-xml"; hwinjDefPath;
      "--get-segment-list" ] in
  let hwinjsegFindCall :=
    foldl (fun call ifo => call ++ ["--" +:+ lower ifo +:+ "-injections"])
          hwinjsegFindCall (ifos workflow) in
  make_external_call hwinjsegFindCall log_dir "hwinjseg-call".

Definition setup_hardware_injection_page (input_files : FileList)
    (cache_filename inspiral_cachepattern output_dir : string)
    (tags : list string) : M FileList :=
  let out_files : FileList := [] in
  (* make the output dir *)
  e ← path_exists output_dir;
  (if negb e then makedirs output_dir else mret tt);;
  (* create executable *)
  workflow ← get_workflow;
  let hwinjpage_job :=
    Executable_init (cp workflow) "hardware_injection_page" "vanilla"
                    (ifos workflow) output_dir tags in
  (* retrieve hardware injection file *)
  hwinjDefUrl ← get_opt_tags "workflow-hardware-injections" "hwinj-definer-url" tags;
  let hwinjDefBaseName := basename hwinjDefUrl in
  let hwinjDefNewPath := path_join output_dir hwinjDefBaseName in
  urlretrieve hwinjDefUrl hwinjDefNewPath;;
  (* update hwinj definer file location *)
  cp_set "workflow-hardware-injections" "hwinj-definer-file" hwinjDefNewPath;;
  (* query for the hardware injection segments *)
  get_hardware_injection_segment_files output_dir hwinjDefNewPath;;
  (* create node *)
  workflow ← get_workflow;
  let node := Node_init hwinjpage_job in
  let node := add_opt node "--gps-start-time" (Some (VInt (analysis_time workflow).1)) in
  let node := add_opt node "--gps-end-time" (Some (VInt (analysis_time workflow).2)) in
  let node := add_opt node "--source-xml" (Some (VStr hwinjDefNewPath)) in
  let node := add_opt node "--segment-dir" (Some (VStr output_dir)) in
  let node := add_opt node "--cache-file" (Some (VStr cache_filename)) in
  let node := add_opt node "--cache-pattern" (Some (VStr inspiral_cachepattern)) in
  let node := add_opt node "--analyze-injections" (Some (VStr "")) in
  let node :=
    foldl (fun node ifo =>
             add_opt node ("--" +:+ lower ifo +:+ "-injections") (Some (VStr "")))
          node (ifos workflow) in
  let outfile :=
    File_storage_path (ifo_string (executable node)) "HWINJ_SUMMARY"
                      (analysis_time workflow) "html" output_dir in
  let node := add_opt node "--outfile" (Some (VStr outfile)) in
  (* add node to workflow *)
  node_dax ← call (fun workflow => add_node workflow node);
  (* make all input_files parents *)
  call (fun workflow => (tt, add_parents workflow input_files node_dax));;
  let out_files := out_files ++ output_files node in
  mret out_files.

(** ** The dispatcher *)

Definition setup_summary_plots (input_files : FileList)
    (cache_filename tmpltbank_cachepattern inspiral_cachepattern output_dir : string)
    (tags : list string) : M FileList :=
  let plot_files : FileList := [] in
  (* make summary plot dir *)
  e ← path_exists output_dir;
  (if negb e then makedirs output_dir else mret tt);;
  (* setup summary plot jobs *)
  plotinspiral_files ←
    call (fun workflow =>
            setup_plotinspiral workflow input_files cache_filename
                               inspiral_cachepattern output_dir tags);
  plotinspiralrange_files ←
    call (fun workflow =>
            setup_plotinspiralrange workflow input_files cache_filename
                                    tmpltbank_cachepattern inspiral_cachepattern
                                    output_dir tags);
  plotnumtemplates_files ←
    call (fun workflow =>
            setup_plotnumtemplates workflow input_files cache_filename
                                   tmpltbank_cachepattern output_dir tags);
  (* concatenate plot files *)
  let plot_files := plot_files ++ plotinspiral_files in
  let plot_files := plot_files ++ plotinspiralrange_files in
  let plot_files := plot_files ++ plotnumtemplates_files in
  mret plot_files.

End Routines.

(** ** What a stage adds to the DAG

    The closed form of a stage: handing the nodes [nodes] to the DAG [g],
    each with every input file's producer as a parent, numbers them from
    [sequence g] on and adds the edges node after node. *)

Definition edges_to (input_files : FileList) (j : JobId) : list Dependency :=
  map (fun f => {| parent := node_dax_node f; child := j |}) input_files.

Definition register_all (g : ADAG) (input_files : FileList) (nodes : list Node)
    : ADAG :=
  let ids := seq (sequence g) (length nodes) in
  {| jobs := jobs g ++ zip ids nodes;
     dependencies := dependencies g ++ flat_map (edges_to input_files) ids;
     sequence := sequence g + length nodes |}.

(** The nodes and edges of [w'] that [w] does not have yet. *)
Definition new_jobs (w w' : Workflow) : list (JobId * Node) :=
  drop (length (jobs (_adag w))) (jobs (_adag w')).

Definition new_dependencies (w w' : Workflow) : list Dependency :=
  drop (length (dependencies (_adag w))) (dependencies (_adag w')).

(** The node that each stage builds for one turn of its loop, with its
    options written out. *)

Definition plotinspiral_node (w : Workflow)
    (cache_filename inspiral_cachepattern output_dir : string)
    (tags : list string) (tag ifo : string) : Node :=
  {| executable := Executable_init (cp w) "plotinspiral" "vanilla" (ifos w)
                                   output_dir tags;
     _options :=
       [ ("--gps-start-time", Some (VInt (analysis_time w).1));
         ("--gps-end-time", Some (VInt (analysis_time w).2));
         ("--cache-file", Some (VStr cache_filename));
         ("--ifo-times", Some (VStr ifo));
         ("--ifo-tag", Some (VStr ("FIRST_" +:+ ifo)));
         ("--user-tag", Some (VStr (upper tag +:+ "_SUMMARY_PLOTS")));
         ("--output-path", Some (VStr output_dir));
         ("--trig-pattern", Some (VStr inspiral_cachepattern));
         ("--enable-output", None) ];
     _outputs := [] |}.

Definition plotnumtemplates_node (w : Workflow)
    (cache_filename tmpltbank_cachepattern output_dir : string)
    (tags : list string) (tag : string) : Node :=
  {| executable := Executable_init (cp w) "plotnumtemplates" "vanilla" (ifos w)
                                   output_dir tags;
     _options :=
       [ ("--gps-start-time", Some (VInt (analysis_time w).1));
         ("--gps-end-time", Some (VInt (analysis_time w).2));
         ("--cache-file", Some (VStr cache_filename));
         ("--ifo-times", Some (VStr (join (ifos w))));
         ("--user-tag", Some (VStr (upper tag +:+ "_SUMMARY_PLOTS")));
         ("--output-path", Some (VStr output_dir));
         ("--bank-pattern", Some (VStr tmpltbank_cachepattern));
         ("--enable-output", None) ];
     _outputs := [] |}.

Definition plotthinca_node (w : Workflow)
    (cache_filename coinc_cachepattern slide_cachepattern output_dir : string)
    (tags : list string) (tag : string) (ifo_list : list string) : Node :=
  {| executable := Executable_init (cp w) "plotthinca" "vanilla" (ifos w)
                                   output_dir tags;
     _options :=
       [ ("--gps-start-time", Some (VInt (analysis_time w).1));
         ("--gps-end-time", Some (VInt (analysis_time w).2));
         ("--cache-file", Some (VStr cache_filename));
         ("--ifo-times", Some (VStr (join ifo_list)));
         ("--ifo-tag", Some (VStr ("SECOND_" +:+ join ifo_list))) ]
       ++ map (fun ifo => ("--" +:+ lower ifo +:+ "-triggers", Some (VStr "")))
              ifo_list
       ++ [ ("--user-tag", Some (VStr (upper tag +:+ "_SUMMARY_PLOTS")));
            ("--output-path", Some (VStr output_dir));
            ("--coinc-pattern", Some (VStr coinc_cachepattern));
            ("--slide-pattern", Some (VStr slide_cachepattern));
            ("--enable-output", None) ];
     _outputs := [] |}.

Definition plotinspiralrange_node (w : Workflow)
    (cache_filename tmpltbank_cachepattern inspiral_cachepattern output_dir : string)
    (tags : list string) (tag : string) : Node :=
  {| executable := Executable_init (cp w) "plotinspiralrange" "vanilla" (ifos w)
                                   output_dir tags;
     _options :=
       [ ("--gps-start-time", Some (VInt (analysis_time w).1));
         ("--gps-end-time", Some (VInt (analysis_time w).2));
         ("--cache-file", Some (VStr cache_filename));
         ("--ifo-times", Some (VStr (join (ifos w))));
         ("--user-tag", Some (VStr (upper tag +:+ "_SUMMARY_PLOTS")));
         ("--output-path", Some (VStr output_dir));
         ("--bank-pattern", Some (VStr tmpltbank_cachepattern));
         ("--trig-pattern", Some (VStr inspiral_cachepattern));
         ("--enable-output", None) ];
     _outputs := [] |}.

Definition plotinspiral_nodes (w : Workflow)
    (cache_filename inspiral_cachepattern output_dir : string)
    (tags : list string) : list Node :=
  flat_map (fun tag =>
    flat_map (fun ifo =>
      [plotinspiral_node w cache_filename inspiral_cachepattern output_dir tags tag ifo])
      (ifos w)) tags.

Definition plotnumtemplates_nodes (w : Workflow)
    (cache_filename tmpltbank_cachepattern output_dir : string)
    (tags : list string) : list Node :=
  flat_map (fun tag =>
    [plotnumtemplates_node w cache_filename tmpltbank_cachepattern output_dir tags tag])
    tags.

Definition plotthinca_nodes (w : Workflow)
    (cache_filename coinc_cachepattern slide_cachepattern output_dir : string)
    (tags : list string) : list Node :=
  flat_map (fun tag =>
    flat_map (fun ifo_list =>
      [plotthinca_node w cache_filename coinc_cachepattern slide_cachepattern
                       output_dir tags tag ifo_list])
      (ifo_combos_of (ifos w))) tags.

Definition plotinspiralrange_nodes (w : Workflow)
    (cache_filename tmpltbank_cachepattern inspiral_cachepattern output_dir : string)
    (tags : list string) : list Node :=
  flat_map (fun tag =>
    [plotinspiralrange_node w cache_filename tmpltbank_cachepattern
                            inspiral_cachepattern output_dir tags tag])
    tags.

Definition hwinj_node (w : Workflow)
    (cache_filename inspiral_cachepattern output_dir : string)
    (tags : list string) (hwinjDefNewPath : string) : Node :=
  {| executable := Executable_init (cp w) "hardware_injection_page" "vanilla"
                                   (ifos w) output_dir tags;
     _options :=
       [ ("--gps-start-time", Some (VInt (analysis_time w).1));
         ("--gps-end-time", Some (VInt (analysis_time w).2));
         ("--source-xml", Some (VStr hwinjDefNewPath));
         ("--segment-dir", Some (VStr output_dir));
         ("--cache-file", Some (VStr cache_filename));
         ("--cache-pattern", Some (VStr inspiral_cachepattern));
         ("--analyze-injections", Some (VStr "")) ]
       ++ map (fun ifo => ("--" +:+ lower ifo +:+ "-injections", Some (VStr "")))
              (ifos w)
       ++ [ ("--outfile",
             Some (VStr (File_storage_path (join (ifos w)) "HWINJ_SUMMARY"
                                           (analysis_time w) "html" output_dir))) ];
     _outputs := [] |}.

(** ** Specifications

    [wp m Q E st]: run from [st], [m] returns a value and a state that
    satisfy [Q], or raises an exception that satisfies [E] with the state
    it leaves. *)
Definition wp {A : Type} (m : M A) (Q : A -> State -> Prop)
    (E : Exception -> State -> Prop) (st : State) : Prop :=
  match m st with
  | (Ok a, st') => Q a st'
  | (Raise e, st') => E e st'
  end.

(** The call that takes [w] to [w'] only added nodes and edges, and every
    input file's producer is a parent of every node added. *)
Definition parents_linked (input_files : FileList) (w w' : Workflow) : Prop :=
  jobs (_adag w') = jobs (_adag w) ++ new_jobs w w' /\
  dependencies (_adag w') = dependencies (_adag w) ++ new_dependencies w w' /\
  (forall f j node,
      f ∈ input_files -> (j, node) ∈ new_jobs w w' ->
      {| parent := node_dax_node f; child := j |} ∈ new_dependencies w w') /\
  length input_files * length (new_jobs w w') <= length (new_dependencies w w').

(** The values of the options of a node with the given flag. *)
Definition opt_values (node : Node) (flag : string) : list (option OptValue) :=
  snd <$> filter (fun o => o.1 = flag) (_options node).

(** The node has a [--user-tag] option, and the value of every such option
    is the upper-cased tag followed by [_SUMMARY_PLOTS]. *)
Definition user_tag_normalized (tag : string) (node : Node) : Prop :=
  ("--user-tag", Some (VStr (upper tag +:+ "_SUMMARY_PLOTS"))) ∈ _options node /\
  forall v, ("--user-tag", v) ∈ _options node ->
            v = Some (VStr (upper tag +:+ "_SUMMARY_PLOTS")).

(** Every flag of the node is one of the fixed flags or the per-detector
    flag of a detector of [dets], built from its lower-cased identifier, and
    each detector of [dets] has its flag. *)
Definition detector_flags_lowercase (fixed : list string) (suffix : string)
    (dets : list string) (node : Node) : Prop :=
  (forall flag v, (flag, v) ∈ _options node ->
     flag ∈ fixed \/ exists ifo, ifo ∈ dets /\ flag = "--" +:+ lower ifo +:+ suffix) /\
  (forall ifo, ifo ∈ dets ->
     exists v, ("--" +:+ lower ifo +:+ suffix, v) ∈ _options node).

Definition plotthinca_flags : list string :=
  [ "--gps-start-time"; "--gps-end-time"; "--cache-file"; "--ifo-times";
    "--ifo-tag"; "--user-tag"; "--output-path"; "--coinc-pattern";
    "--slide-pattern"; "--enable-output" ].

Definition hwinj_flags : list string :=
  [ "--gps-start-time"; "--gps-end-time"; "--source-xml"; "--segment-dir";
    "--cache-file"; "--cache-pattern"; "--analyze-injections"; "--outfile" ].

(** The directory creation that opens [setup_summary_plots],
    [setup_hardware_injection_page] and
    [get_hardware_injection_segment_files]:
[[
    if not os.path.exists(output_dir):
        os.makedirs(output_dir)
]] *)
Definition make_dir_if_absent (env : Env) (output_dir : string) : M unit :=
  e ← path_exists output_dir;
  if negb e then makedirs env output_dir else mret tt.

(** ** Concrete inputs *)

Definition env_ok : Env :=
  {| mkdir_permitted := fun _ => true;
     urlretrieve_ok := fun _ => true;
     external_call_ok := fun _ => true;
     external_call_writes := fun _ _ _ => ∅ |}.

Definition env_offline : Env :=
  {| mkdir_permitted := fun _ => true;
     urlretrieve_ok := fun _ => false;
     external_call_ok := fun _ => false;
     external_call_writes := fun _ _ _ => ∅ |}.

Definition cp_example : Config :=
  {[ "workflow-hardware-injections" :=
       {[ "hwinj-definer-url" := "http://example.org/inj/hwinj.xml" ]};
     "executables" := {[ "hardware_injection_page" := "/usr/bin/hwinj_page" ]};
     "workflow-segments" := {[ "segments-database-url" := "https://segments.example.org" ]} ]}.

Definition adag_example : ADAG :=
  {| jobs := []; dependencies := []; sequence := 1 |}.

Definition workflow_HL : Workflow :=
  {| cp := cp_example; ifos := ["H1"; "L1"];
     analysis_time := (1000000000, 1000086400)%Z; _adag := adag_example |}.

Definition state_HL : State := {| workflow := workflow_HL; fs := ∅ |}.

Definition files_example : FileList :=
  [ {| storage_path := "H1-INSPIRAL-1000000000-2048.xml.gz"; node_dax_node := 0 |} ].

(** ** Further notions used by the properties of the routines *)

(** The edges of [w'] that [w] does not have are, for each new node in the
    order of registration, one edge per input file in the order of the
    list, and nothing else. *)
Definition edges_exact (input_files : FileList) (w w' : Workflow) : Prop :=
  new_dependencies w w' = flat_map (edges_to input_files) (new_jobs w w').*1.

(** The call takes [w] to [w'] without touching the configuration, the
    detectors or the analysis time. *)
Definition same_settings (w w' : Workflow) : Prop :=
  cp w' = cp w /\ ifos w' = ifos w /\ analysis_time w' = analysis_time w.

(** [cp.get(section, opt)] as a lookup. *)
Definition cp_lookup (c : Config) (section opt : string) : option string :=
  c !! section ≫= (.!! opt).

(** The command line of the segment query, written out. *)
Definition hwinjseg_command (w : Workflow) (exe db output_dir hwinjDefPath : string)
    : list string :=
  [ exe;
    "--gps-start-time"; str (analysis_time w).1;
    "--gps-end-time"; str (analysis_time w).2;
    "--segment-db"; db;
    "--segment-dir"; output_dir;
    "--source-xml"; hwinjDefPath;
    "--get-segment-list" ]
  ++ map (fun ifo => "--" +:+ lower ifo +:+ "-injections") (ifos w).

(** [s.endswith(suffix)] *)
Fixpoint ends_with (suffix s : string) : bool :=
  String.eqb s suffix ||
  match s with
  | EmptyString => false
  | String _ s' => ends_with suffix s'
  end.


(** The node has exactly one option with this flag, with this value. *)
Definition carries (node : Node) (flag : string) (v : option OptValue) : Prop :=
  opt_values node flag = [v].

Definition workflow_HLV : Workflow :=
  {| cp := cp_example; ifos := ["H1"; "L1"; "V1"];
     analysis_time := (1000000000, 1000086400)%Z; _adag := adag_example |}.

(** The state after the definer document was fetched and its local path
    written back to the configuration. *)
Definition definer_file_recorded (out : string) (tags : list string)
    (w : Workflow) (st' : State) (path : string) : Prop :=
  exists url sec,
    lookup_opt_tags (cp w) "workflow-hardware-injections" "hwinj-definer-url" tags
    = Some url /\
    path = path_join out (basename url) /\
    cp w !! "workflow-hardware-injections" = Some sec /\
    cp (workflow st')
    = <["workflow-hardware-injections" := <["hwinj-definer-file" := path]> sec]> (cp w) /\
    path ∈ fs st'.

(** The options that every plot stage attaches once to each node: the
    analysis window, the cache file, the output directory and the flag
    that enables output. *)
Definition common_options (w : Workflow) (cache_filename output_dir : string)
    (node : Node) : Prop :=
  carries node "--gps-start-time" (Some (VInt (analysis_time w).1)) /\
  carries node "--gps-end-time" (Some (VInt (analysis_time w).2)) /\
  carries node "--cache-file" (Some (VStr cache_filename)) /\
  carries node "--output-path" (Some (VStr output_dir)) /\
  carries node "--enable-output" None.

Definition env_query_fails : Env :=
  {| mkdir_permitted := fun _ => true;
     urlretrieve_ok := fun _ => true;
     external_call_ok := fun _ => false;
     external_call_writes := fun _ _ _ => ∅ |}.

(** * Properties *)

(** ** Detector subsets *)

Section Combinations.

Context {A : Type}.
Implicit Types (l c : list A) (r : nat).

Lemma combinations_length l : forall r,
  length (combinations l r) = binom (length l) r.
Proof.
  induction l as [|x xs IH]; intros [|r]; simpl; try done.
  by rewrite length_app, length_map, !IH.
Qed.

(** The combinations are the subsequences of the given length. *)
Lemma elem_of_combinations l : forall r c,
  c ∈ combinations l r <-> c `sublist_of` l /\ length c = r.
Proof.
  induction l as [|x xs IH]; intros [|r] c; simpl.
  - rewrite list_elem_of_singleton. split.
    + intros ->. split; [constructor | done].
    + intros [_ Hlen]. by destruct c.
  - split; [by intros ?%elem_of_nil |].
    intros [Hs Hlen]. apply sublist_nil_r in Hs. by subst.
  - rewrite list_elem_of_singleton. split.
    + intros ->. split; [apply sublist_nil_l | done].
    + intros [_ Hlen]. by destruct c.
  - rewrite elem_of_app, list_elem_of_fmap. split.
    + intros [(c' & -> & Hc') | Hc].
      * apply IH in Hc' as [Hs Hlen]. split; [by constructor | by simpl; f_equal].
      * apply IH in Hc as [Hs Hlen]. split; [by constructor | done].
    + intros [Hs Hlen]. inversion Hs as [| y c' ? Hs' | y ? ? Hs']; subst.
      * left. exists c'. split; [done |]. apply IH. simpl in Hlen. split; [done | lia].
      * right. apply IH. done.
Qed.

End Combinations.

Lemma binom_gt n : forall k, n < k -> binom n k = 0.
Proof.
  induction n as [|n IH]; intros [|k] Hk; simpl; try lia.
  rewrite !IH; lia.
Qed.

Lemma binom_diag n : binom n n = 1.
Proof.
  induction n as [|n IH]; simpl; [done |].
  rewrite IH, binom_gt; lia.
Qed.

Lemma pascal_step (a b fk fr fn k m : nat) :
  a * (fk * (S m * fr)) = fn ->
  b * (S k * fk * fr) = fn ->
  (a + b) * (S k * fk * (S m * fr)) = (S k + S m) * fn.
Proof.
  intros H1 H2.
  transitivity (S k * (a * (fk * (S m * fr))) + S m * (b * (S k * fk * fr))).
  - lia.
  - rewrite H1, H2. lia.
Qed.

(** [binom] is the binomial coefficient: C(n, k) * k! * (n - k)! = n!. *)
Lemma binom_fact n : forall k,
  k <= n -> binom n k * (fact k * fact (n - k)) = fact n.
Proof.
  induction n as [|n IH]; intros [|k] Hk; try lia.
  - reflexivity.
  - cbn [binom fact Nat.sub]. lia.
  - destruct (decide (k = n)) as [-> | Hne].
    + cbn [binom]. rewrite binom_diag, binom_gt by lia.
      replace (S n - S n) with 0 by lia. cbn [fact]. lia.
    + cbn [binom]. replace (S n - S k) with (n - k) by lia.
      pose proof (IH k ltac:(lia)) as H1.
      pose proof (IH (S k) ltac:(lia)) as H2.
      replace (n - k) with (S (n - S k)) in * by lia.
      change (fact (S (n - S k))) with (S (n - S k) * fact (n - S k)) in *.
      change (fact (S k)) with (S k * fact k) in *.
      change (fact (S n)) with (S n * fact n).
      replace (S n) with (S k + S (n - S k)) at 1 by lia.
      by apply pascal_step.
Qed.

Lemma foldl_snoc {A : Type} (xs : list A) : forall acc,
  foldl (fun acc x => acc ++ [x]) acc xs = acc ++ xs.
Proof.
  induction xs as [|x xs IH]; intros acc; simpl.
  - by rewrite app_nil_r.
  - by rewrite IH, <- app_assoc.
Qed.

Lemma foldl_extend {A B : Type} (f : B -> list A) (ns : list B) : forall acc,
  foldl (fun acc n => foldl (fun acc x => acc ++ [x]) acc (f n)) acc ns
  = acc ++ flat_map f ns.
Proof.
  induction ns as [|n ns IH]; intros acc; simpl.
  - by rewrite app_nil_r.
  - by rewrite foldl_snoc, IH, <- app_assoc.
Qed.

(** The loop of [setup_plotthinca] collects, size after size from 2 on,
    the combinations of each size in their own order. *)
Lemma ifo_combos_of_eq (l : list string) :
  ifo_combos_of l = flat_map (fun n => combinations l (n + 2)) (seq 0 (length l + 1)).
Proof. unfold ifo_combos_of. by rewrite foldl_extend. Qed.

Lemma length_flat_map {A B : Type} (f : A -> list B) (l : list A) :
  length (flat_map f l) = sum_list_with (fun x => length (f x)) l.
Proof.
  induction l as [|x l IH]; simpl; [done |]. by rewrite length_app, IH.
Qed.

Lemma sum_list_with_pointwise {A : Type} (f g : A -> nat) (l : list A) :
  (forall x, f x = g x) -> sum_list_with f l = sum_list_with g l.
Proof.
  intros H. induction l as [|x l IH]; simpl; [done |]. by rewrite H, IH.
Qed.

Lemma sum_list_with_seq_shift (g : nat -> nat) (d : nat) : forall m s,
  sum_list_with (fun n => g (n + d)) (seq s m) = sum_list_with g (seq (s + d) m).
Proof.
  induction m as [|m IH]; intros s; simpl; [done |].
  by rewrite (IH (S s)).
Qed.

Lemma sum_list_with_zero_on {A : Type} (g : A -> nat) (l : list A) :
  (forall x, x ∈ l -> g x = 0) -> sum_list_with g l = 0.
Proof.
  induction l as [|x l IH]; intros H; simpl; [done |].
  rewrite (H x), IH; [done | | by left].
  intros y Hy. apply H. by right.
Qed.

Lemma ifo_combos_of_length (l : list string) :
  length (ifo_combos_of l) = sum_range (binom (length l)) 2 (length l).
Proof.
  rewrite ifo_combos_of_eq, length_flat_map. unfold sum_range.
  rewrite (sum_list_with_pointwise _ (fun n => binom (length l) (n + 2)))
    by (intros; apply combinations_length).
  rewrite (sum_list_with_seq_shift (binom (length l)) 2). simpl.
  destruct (length l) as [|k] eqn:Hk; [done |].
  replace (S k + 1) with (k + 2) by lia.
  replace (S k - 1) with k by lia.
  rewrite seq_app, sum_list_with_app.
  rewrite (sum_list_with_zero_on _ (seq _ 2)); [lia |].
  intros i Hi. apply elem_of_seq in Hi. apply binom_gt. lia.
Qed.

Lemma elem_of_ifo_combos_of (l c : list string) :
  c ∈ ifo_combos_of l <-> c `sublist_of` l /\ 2 <= length c.
Proof.
  rewrite ifo_combos_of_eq, list_elem_of_In, in_flat_map. split.
  - intros (n & Hn & Hc). apply list_elem_of_In, elem_of_combinations in Hc as [Hs Hlen].
    split; [done | lia].
  - intros [Hs Hlen]. exists (length c - 2). split.
    + apply in_seq. apply sublist_length in Hs. lia.
    + apply list_elem_of_In, elem_of_combinations. split; [done | lia].
Qed.

(** ** Registering nodes *)

Lemma with_adag_id (w : Workflow) : with_adag w (_adag w) = w.
Proof. by destruct w. Qed.

Lemma register_all_nil (g : ADAG) (fl : FileList) : register_all g fl [] = g.
Proof.
  destruct g as [js ds s]. unfold register_all; simpl.
  by rewrite !app_nil_r, Nat.add_0_r.
Qed.

Lemma register_all_app (g : ADAG) (fl : FileList) (a b : list Node) :
  register_all (register_all g fl a) fl b = register_all g fl (a ++ b).
Proof.
  unfold register_all; simpl.
  rewrite length_app, seq_app, flat_map_app, !app_assoc, Nat.add_assoc.
  f_equal. rewrite <- !app_assoc. f_equal.
  symmetry. apply zip_with_app. by rewrite length_seq.
Qed.

Lemma add_parents_eq (fl : FileList) (j : JobId) : forall w,
  add_parents w fl j
  = with_adag w {| jobs := jobs (_adag w);
                   dependencies := dependencies (_adag w) ++ edges_to fl j;
                   sequence := sequence (_adag w) |}.
Proof.
  unfold add_parents.
  induction fl as [|f fl IH]; intros w; simpl.
  - rewrite app_nil_r. by destruct w as [? ? ? []].
  - rewrite IH. simpl. by rewrite <- app_assoc.
Qed.

(** One turn of a stage's loop: the node is registered, then linked. *)
Lemma register_one (w : Workflow) (g : ADAG) (fl : FileList) (node : Node) :
  (let '(node_dax, workflow) := add_node (with_adag w g) node in
   add_parents workflow fl node_dax)
  = with_adag w (register_all g fl [node]).
Proof.
  unfold add_node, addJob; simpl. rewrite add_parents_eq. simpl.
  unfold register_all; simpl. by rewrite app_nil_r, Nat.add_1_r.
Qed.

Lemma foldl_register_adag {X : Type} (w : Workflow) (fl : FileList)
    (mk : X -> list Node) (body : Workflow -> X -> Workflow) :
  (forall g x, body (with_adag w g) x = with_adag w (register_all g fl (mk x))) ->
  forall xs g,
    foldl body (with_adag w g) xs = with_adag w (register_all g fl (flat_map mk xs)).
Proof.
  intros Hbody. induction xs as [|x xs IH]; intros g; simpl.
  - by rewrite register_all_nil.
  - by rewrite Hbody, IH, register_all_app.
Qed.

Lemma foldl_register {X : Type} (w : Workflow) (fl : FileList)
    (mk : X -> list Node) (body : Workflow -> X -> Workflow) (xs : list X) :
  (forall g x, body (with_adag w g) x = with_adag w (register_all g fl (mk x))) ->
  foldl body w xs = with_adag w (register_all (_adag w) fl (flat_map mk xs)).
Proof.
  intros Hbody.
  pose proof (foldl_register_adag w fl mk body Hbody xs (_adag w)) as H.
  by rewrite with_adag_id in H.
Qed.

Lemma foldl_add_opt {X : Type} (f : X -> string) (v : option OptValue) (l : list X) :
  forall node,
    foldl (fun node x => add_opt node (f x) v) node l
    = {| executable := executable node;
         _options := _options node ++ map (fun x => (f x, v)) l;
         _outputs := _outputs node |}.
Proof.
  induction l as [|x l IH]; intros node; simpl.
  - rewrite app_nil_r. by destruct node.
  - rewrite IH. simpl. by rewrite <- app_assoc.
Qed.

(** ** The stages in closed form *)

Lemma setup_plotinspiral_eq w fl cache pat out tags :
  setup_plotinspiral w fl cache pat out tags
  = ([], with_adag w (register_all (_adag w) fl
                        (plotinspiral_nodes w cache pat out tags))).
Proof.
  unfold setup_plotinspiral, plotinspiral_nodes. f_equal.
  apply foldl_register. intros g tag. cbv beta.
  apply foldl_register_adag. intros g' ifo. cbv beta.
  by rewrite register_one.
Qed.

Lemma setup_plotnumtemplates_eq w fl cache pat out tags :
  setup_plotnumtemplates w fl cache pat out tags
  = ([], with_adag w (register_all (_adag w) fl
                        (plotnumtemplates_nodes w cache pat out tags))).
Proof.
  unfold setup_plotnumtemplates, plotnumtemplates_nodes. f_equal.
  apply foldl_register. intros g tag. cbv beta.
  by rewrite register_one.
Qed.

Lemma setup_plotthinca_eq w fl cache coinc slide out tags :
  setup_plotthinca w fl cache coinc slide out tags
  = ([], with_adag w (register_all (_adag w) fl
                        (plotthinca_nodes w cache coinc slide out tags))).
Proof.
  unfold setup_plotthinca, plotthinca_nodes. f_equal.
  apply foldl_register. intros g tag. cbv beta.
  apply foldl_register_adag. intros g' ifo_list. cbv beta zeta.
  rewrite register_one. do 2 f_equal.
  unfold plotthinca_node. simpl.
  rewrite (foldl_add_opt (fun ifo => "--" +:+ lower ifo +:+ "-triggers")). simpl.
  unfold add_opt; simpl. f_equal.
  by rewrite <- !app_assoc.
Qed.

Lemma setup_plotinspiralrange_eq w fl cache bank pat out tags :
  setup_plotinspiralrange w fl cache bank pat out tags
  = ([], with_adag w (register_all (_adag w) fl
                        (plotinspiralrange_nodes w cache bank pat out tags))).
Proof.
  unfold setup_plotinspiralrange, plotinspiralrange_nodes. f_equal.
  apply foldl_register. intros g tag. cbv beta.
  by rewrite register_one.
Qed.

(** ** What [os.makedirs] does to the file system *)

Lemma mkdir_each_mono permitted dirs : forall fs : gset string,
  fs ⊆ (mkdir_each permitted dirs fs).2.
Proof.
  induction dirs as [|d dirs IH]; intros fs; cbn [mkdir_each]; [done |].
  destruct (bool_decide (d ∈ fs)); [apply IH |].
  destruct (permitted d); [| done].
  etrans; [| apply IH]. set_solver.
Qed.

Lemma mkdir_each_bound permitted dirs : forall (fs : gset string) q,
  q ∈ (mkdir_each permitted dirs fs).2 -> q ∈ fs \/ q ∈ dirs.
Proof.
  induction dirs as [|d dirs IH]; intros fs q; cbn [mkdir_each]; [by left |].
  destruct (bool_decide (d ∈ fs)).
  - intros [? | ?]%IH; [by left | right; by right].
  - destruct (permitted d); [| by left].
    intros [Hq | ?]%IH; [| right; by right].
    apply elem_of_union in Hq as [->%elem_of_singleton | ?]; [right; by left | by left].
Qed.

Lemma take_missing_subseteq (fs : gset string) dirs q :
  q ∈ take_missing fs dirs -> q ∈ dirs.
Proof.
  induction dirs as [|d dirs IH]; cbn [take_missing]; [done |].
  destruct (bool_decide (d ∈ fs)); [by intros ?%elem_of_nil |].
  intros [-> | ?]%elem_of_cons; [by left | right; by apply IH].
Qed.

Lemma missing_parents_intermediate (fs : gset string) p q :
  q ∈ missing_parents fs p -> q ∈ intermediate_dirs p.
Proof.
  unfold missing_parents. rewrite elem_of_reverse.
  intros ?%take_missing_subseteq. by apply elem_of_reverse.
Qed.

Lemma makedirs_fs_mono permitted (fs : gset string) p :
  fs ⊆ (makedirs_fs permitted fs p).2.
Proof.
  unfold makedirs_fs.
  pose proof (mkdir_each_mono permitted (missing_parents fs p) fs) as H.
  destruct (mkdir_each permitted (missing_parents fs p) fs) as [ok fs1].
  cbn [snd] in H.
  destruct ok; cbn [negb]; [| done].
  destruct (bool_decide (p ∈ fs1)); [done |].
  destruct (permitted p); [| done]. cbn [snd]. set_solver.
Qed.

Lemma makedirs_fs_ok permitted (fs : gset string) p :
  (makedirs_fs permitted fs p).1 = true -> p ∈ (makedirs_fs permitted fs p).2.
Proof.
  unfold makedirs_fs.
  destruct (mkdir_each permitted (missing_parents fs p) fs) as [ok fs1].
  destruct ok; cbn [negb]; [| done].
  destruct (bool_decide (p ∈ fs1)); [done |].
  destruct (permitted p); [| done]. intros _. cbn [snd]. set_solver.
Qed.

Lemma makedirs_fs_bound permitted (fs : gset string) p q :
  q ∈ (makedirs_fs permitted fs p).2 ->
  q ∈ fs \/ q = p \/ q ∈ intermediate_dirs p.
Proof.
  unfold makedirs_fs.
  pose proof (mkdir_each_bound permitted (missing_parents fs p) fs q) as H.
  destruct (mkdir_each permitted (missing_parents fs p) fs) as [ok fs1].
  cbn [snd] in H.
  assert (H1 : q ∈ fs1 -> q ∈ fs \/ q = p \/ q ∈ intermediate_dirs p).
  { intros [? | ?%missing_parents_intermediate]%H; auto. }
  destruct ok; cbn [negb]; [| done].
  destruct (bool_decide (p ∈ fs1)); [done |].
  destruct (permitted p); [| done]. cbn [snd].
  intros [->%elem_of_singleton | ?]%elem_of_union; auto.
Qed.

(** On a leaf that exists, [os.makedirs] raises. *)
Lemma makedirs_fs_exists permitted (fs : gset string) p :
  p ∈ fs -> (makedirs_fs permitted fs p).1 = false.
Proof.
  intros Hp. unfold makedirs_fs.
  pose proof (mkdir_each_mono permitted (missing_parents fs p) fs) as H.
  destruct (mkdir_each permitted (missing_parents fs p) fs) as [ok fs1].
  cbn [snd] in H.
  destruct ok; cbn [negb]; [| done].
  rewrite bool_decide_eq_true_2; [done | by apply H].
Qed.

(** ** Running the fallible routines *)

Section WP.

Context {A : Type}.
Implicit Types (Q : A -> State -> Prop) (E : Exception -> State -> Prop).

Lemma wp_bind {B : Type} (m : M B) (f : B -> M A) Q E st :
  wp (m ≫= f) Q E st = wp m (fun b st' => wp (f b) Q E st') E st.
Proof. unfold wp, mbind, M_bind. by destruct (m st) as [[b|e] st']. Qed.

Lemma wp_ret (a : A) Q E st : wp (mret a) Q E st = Q a st.
Proof. done. Qed.

Lemma wp_raise (e : Exception) Q E st : wp (raise e) Q E st = E e st.
Proof. done. Qed.

Lemma wp_call (f : Workflow -> A * Workflow) Q E st :
  wp (call f) Q E st
  = Q (f (workflow st)).1 {| workflow := (f (workflow st)).2; fs := fs st |}.
Proof. unfold wp, call. by destruct (f (workflow st)). Qed.

End WP.

Lemma wp_get_workflow (Q : Workflow -> State -> Prop) E st :
  wp get_workflow Q E st = Q (workflow st) st.
Proof. done. Qed.

Lemma wp_put_workflow w (Q : unit -> State -> Prop) E st :
  wp (put_workflow w) Q E st = Q tt {| workflow := w; fs := fs st |}.
Proof. done. Qed.

Lemma wp_path_exists path (Q : bool -> State -> Prop) E st :
  wp (path_exists path) Q E st = Q (bool_decide (path ∈ fs st)) st.
Proof. done. Qed.

Lemma wp_makedirs env path (Q : unit -> State -> Prop) E st :
  wp (makedirs env path) Q E st
  = if (makedirs_fs (mkdir_permitted env) (fs st) path).1
    then Q tt {| workflow := workflow st;
                 fs := (makedirs_fs (mkdir_permitted env) (fs st) path).2 |}
    else E OSError {| workflow := workflow st;
                      fs := (makedirs_fs (mkdir_permitted env) (fs st) path).2 |}.
Proof.
  unfold wp, makedirs. cbv zeta.
  by destruct (makedirs_fs (mkdir_permitted env) (fs st) path).1.
Qed.

Lemma wp_urlretrieve env url filename (Q : unit -> State -> Prop) E st :
  wp (urlretrieve env url filename) Q E st
  = if urlretrieve_ok env url
    then Q tt {| workflow := workflow st; fs := {[filename]} ∪ fs st |}
    else E IOError st.
Proof. unfold wp, urlretrieve. by destruct (urlretrieve_ok env url). Qed.

Lemma wp_make_external_call env cmd out_dir out_basename
    (Q : unit -> State -> Prop) E st :
  wp (make_external_call env cmd out_dir out_basename) Q E st
  = if external_call_ok env cmd
    then Q tt {| workflow := workflow st;
                 fs := external_call_writes env cmd out_dir out_basename ∪ fs st |}
    else E CalledProcessError
           {| workflow := workflow st;
              fs := external_call_writes env cmd out_dir out_basename ∪ fs st |}.
Proof.
  unfold wp, make_external_call. cbv zeta.
  by destruct (external_call_ok env cmd).
Qed.

Lemma wp_cp_get section opt (Q : string -> State -> Prop) E st :
  wp (cp_get section opt) Q E st
  = match cp (workflow st) !! section with
    | None => E NoSectionError st
    | Some opts =>
        match opts !! opt with
        | None => E NoOptionError st
        | Some v => Q v st
        end
    end.
Proof.
  unfold cp_get. rewrite wp_bind, wp_get_workflow.
  destruct (cp (workflow st) !! section) as [opts|]; [| done].
  by destruct (opts !! opt).
Qed.

Lemma wp_cp_set section opt value (Q : unit -> State -> Prop) E st :
  wp (cp_set section opt value) Q E st
  = match cp (workflow st) !! section with
    | None => E NoSectionError st
    | Some opts =>
        Q tt {| workflow := with_cp (workflow st)
                              (<[section := <[opt := value]> opts]> (cp (workflow st)));
                fs := fs st |}
    end.
Proof.
  unfold cp_set. rewrite wp_bind, wp_get_workflow.
  by destruct (cp (workflow st) !! section).
Qed.

Lemma wp_get_opt_tags section opt tags (Q : string -> State -> Prop) E st :
  wp (get_opt_tags section opt tags) Q E st
  = match lookup_opt_tags (cp (workflow st)) section opt tags with
    | Some v => Q v st
    | None => E ConfigError st
    end.
Proof.
  unfold get_opt_tags. rewrite wp_bind, wp_get_workflow.
  by destruct (lookup_opt_tags (cp (workflow st)) section opt tags).
Qed.

(** What a result says about a specification that holds of the run. *)
Lemma wp_returns {A : Type} (m : M A) Q E st a st' :
  wp m Q E st -> m st = (Ok a, st') -> Q a st'.
Proof. unfold wp. intros H Heq. by rewrite Heq in H. Qed.

(** The directory creation as it stands in the routines, before what
    follows it. *)
Lemma wp_make_dir_then {A : Type} env path (b : bool) (k : unit -> M A) Q E st :
  b = bool_decide (path ∈ fs st) ->
  wp ((if negb b then makedirs env path else mret tt) ≫= k) Q E st
  = if b then wp (k tt) Q E st
    else if (makedirs_fs (mkdir_permitted env) (fs st) path).1
         then wp (k tt) Q E
                 {| workflow := workflow st;
                    fs := (makedirs_fs (mkdir_permitted env) (fs st) path).2 |}
         else E OSError
                {| workflow := workflow st;
                   fs := (makedirs_fs (mkdir_permitted env) (fs st) path).2 |}.
Proof.
  intros ->. rewrite wp_bind.
  destruct (bool_decide (path ∈ fs st)) eqn:Hex; simpl.
  - by rewrite wp_ret.
  - by rewrite wp_makedirs.
Qed.

Ltac wp_step :=
  lazymatch goal with
  | |- wp ((if negb _ then makedirs _ _ else mret tt) ≫= _) _ _ _ =>
      rewrite wp_make_dir_then by reflexivity
  | |- wp (_ ≫= _) _ _ _ => rewrite wp_bind
  | |- wp (mret _) _ _ _ => rewrite wp_ret
  | |- wp (raise _) _ _ _ => rewrite wp_raise
  | |- wp get_workflow _ _ _ => rewrite wp_get_workflow
  | |- wp (path_exists _) _ _ _ => rewrite wp_path_exists
  | |- wp (makedirs _ _) _ _ _ => rewrite wp_makedirs
  | |- wp (urlretrieve _ _ _) _ _ _ => rewrite wp_urlretrieve
  | |- wp (make_external_call _ _ _ _) _ _ _ => rewrite wp_make_external_call
  | |- wp (cp_get _ _) _ _ _ => rewrite wp_cp_get
  | |- wp (cp_set _ _ _) _ _ _ => rewrite wp_cp_set
  | |- wp (get_opt_tags _ _ _) _ _ _ => rewrite wp_get_opt_tags
  | |- wp (call _) _ _ _ => rewrite wp_call
  end;
  cbv beta; cbn [workflow fs].

Ltac wp_case :=
  match goal with
  | |- if ?c then _ else _ => destruct c eqn:?
  | |- match ?x with Some _ => _ | None => _ end => destruct x eqn:?
  end.

Ltac wp_run := repeat first [wp_case | wp_step].

Lemma register_one_adag (w : Workflow) (fl : FileList) (node : Node) :
  add_parents (add_node w node).2 fl (add_node w node).1
  = with_adag w (register_all (_adag w) fl [node]).
Proof.
  pose proof (register_one w (_adag w) fl node) as H.
  rewrite with_adag_id in H. by destruct (add_node w node).
Qed.

(** The hardware injection page: a failure leaves the DAG as it was, and a
    return has registered the one node of the page, linked to the input
    files. *)
Lemma setup_hardware_injection_page_spec env fl cache pat out tags st :
  wp (setup_hardware_injection_page env fl cache pat out tags)
     (fun files st' =>
        files = [] /\
        ifos (workflow st') = ifos (workflow st) /\
        analysis_time (workflow st') = analysis_time (workflow st) /\
        exists path,
          _adag (workflow st')
          = register_all (_adag (workflow st)) fl
                         [hwinj_node (workflow st) cache pat out tags path])
     (fun _ st' => _adag (workflow st') = _adag (workflow st))
     st.
Proof.
  unfold setup_hardware_injection_page, get_hardware_injection_segment_files.
  wp_run; try done.
  all: cbn [workflow fs]; rewrite register_one_adag.
  all: rewrite (foldl_add_opt (fun ifo => "--" +:+ lower ifo +:+ "-injections")).
  all: split_and!; try done.
  all: eexists; reflexivity.
Qed.

(** ** What registration adds *)

Section Registered.

Variables (w w' : Workflow) (fl : FileList) (nodes : list Node).
Hypothesis Hreg : _adag w' = register_all (_adag w) fl nodes.

Lemma new_jobs_registered :
  new_jobs w w' = zip (seq (sequence (_adag w)) (length nodes)) nodes.
Proof. unfold new_jobs. rewrite Hreg. simpl. apply drop_app_length. Qed.

Lemma new_dependencies_registered :
  new_dependencies w w'
  = flat_map (edges_to fl) (seq (sequence (_adag w)) (length nodes)).
Proof. unfold new_dependencies. rewrite Hreg. simpl. apply drop_app_length. Qed.

Lemma new_jobs_nodes : (new_jobs w w').*2 = nodes.
Proof. rewrite new_jobs_registered. apply snd_zip. by rewrite length_seq. Qed.

Lemma new_jobs_length : length (new_jobs w w') = length nodes.
Proof.
  transitivity (length (new_jobs w w').*2).
  - by rewrite length_fmap.
  - by rewrite new_jobs_nodes.
Qed.

Lemma new_dependencies_length :
  length (new_dependencies w w') = length fl * length (new_jobs w w').
Proof.
  rewrite new_jobs_length, new_dependencies_registered.
  generalize (sequence (_adag w)).
  induction (length nodes) as [|n IH]; intros s; simpl; [lia |].
  rewrite length_app, IH. unfold edges_to. rewrite length_map. lia.
Qed.

Lemma registered_parents_linked : parents_linked fl w w'.
Proof.
  unfold parents_linked. split_and!.
  - rewrite new_jobs_registered, Hreg. done.
  - rewrite new_dependencies_registered, Hreg. done.
  - intros f j node Hf Hj.
    rewrite new_jobs_registered in Hj. apply elem_of_zip_l in Hj.
    rewrite new_dependencies_registered.
    apply list_elem_of_In, in_flat_map. exists j. split.
    + by apply list_elem_of_In.
    + apply list_elem_of_In. unfold edges_to.
      apply (list_elem_of_fmap_2 (fun f => {| parent := node_dax_node f; child := j |})).
      done.
  - rewrite new_dependencies_length. done.
Qed.

End Registered.

Lemma length_flat_map_singleton {X Y : Type} (f : X -> Y) (l : list X) :
  length (flat_map (fun x => [f x]) l) = length l.
Proof. induction l as [|x l IH]; simpl; [done | by rewrite IH]. Qed.

Lemma length_flat_map_const {X Y : Type} (f : X -> list Y) (n : nat) (l : list X) :
  (forall x, length (f x) = n) -> length (flat_map f l) = length l * n.
Proof.
  intros H. induction l as [|x l IH]; simpl; [done |].
  by rewrite length_app, H, IH.
Qed.

(** C1.  Every stage-setup routine links what it creates: when it returns,
    the DAG has an edge from the producing node of every input file to
    every node the call registered, so at least
    [len(input_files) * nodes created] edges were added.  The four plot
    stages always return; the hardware injection page returns unless one of
    its external steps raises. *)
Theorem stage_links_every_input_to_every_node :
  (forall w fl cache pat out tags,
      parents_linked fl w (setup_plotinspiral w fl cache pat out tags).2) /\
  (forall w fl cache bank out tags,
      parents_linked fl w (setup_plotnumtemplates w fl cache bank out tags).2) /\
  (forall w fl cache coinc slide out tags,
      parents_linked fl w (setup_plotthinca w fl cache coinc slide out tags).2) /\
  (forall w fl cache bank pat out tags,
      parents_linked fl w (setup_plotinspiralrange w fl cache bank pat out tags).2) /\
  (forall env fl cache pat out tags st files st',
      setup_hardware_injection_page env fl cache pat out tags st = (Ok files, st') ->
      parents_linked fl (workflow st) (workflow st')).
Proof.
  split_and!.
  - intros. rewrite setup_plotinspiral_eq. by eapply registered_parents_linked.
  - intros. rewrite setup_plotnumtemplates_eq. by eapply registered_parents_linked.
  - intros. rewrite setup_plotthinca_eq. by eapply registered_parents_linked.
  - intros. rewrite setup_plotinspiralrange_eq. by eapply registered_parents_linked.
  - intros env fl cache pat out tags st files st' Hrun.
    pose proof (setup_hardware_injection_page_spec env fl cache pat out tags st) as H.
    apply (wp_returns _ _ _ _ _ _ H) in Hrun as (_ & _ & _ & path & Hreg).
    by eapply registered_parents_linked.
Qed.

Lemma stage_links_every_input_to_every_node_witness :
  parents_linked files_example workflow_HL
    (workflow (setup_hardware_injection_page env_ok files_example
                 "ihope.cache" "INSPIRAL" "summary" [] state_HL).2).
Proof.
  destruct stage_links_every_input_to_every_node as (_ & _ & _ & _ & H).
  apply (H env_ok files_example "ihope.cache" "INSPIRAL" "summary" [] state_HL []).
  vm_compute. reflexivity.
Defined.

(** ** Node counts *)

Lemma plotinspiral_nodes_length w cache pat out tags :
  length (plotinspiral_nodes w cache pat out tags) = length tags * length (ifos w).
Proof.
  unfold plotinspiral_nodes. apply length_flat_map_const.
  intros tag. apply length_flat_map_singleton.
Qed.

Lemma plotnumtemplates_nodes_length w cache bank out tags :
  length (plotnumtemplates_nodes w cache bank out tags) = length tags.
Proof. apply length_flat_map_singleton. Qed.

Lemma plotinspiralrange_nodes_length w cache bank pat out tags :
  length (plotinspiralrange_nodes w cache bank pat out tags) = length tags.
Proof. apply length_flat_map_singleton. Qed.

Lemma plotthinca_nodes_length w cache coinc slide out tags :
  length (plotthinca_nodes w cache coinc slide out tags)
  = length tags * length (ifo_combos_of (ifos w)).
Proof.
  unfold plotthinca_nodes. apply length_flat_map_const.
  intros tag. apply length_flat_map_singleton.
Qed.

(** C2, as stated, fails for [setup_plotinspiral]: with the two detectors
    H1 and L1 and the single tag [full_data] it creates two nodes, not
    [len(tags) = 1]. *)
Lemma plotinspiral_two_detectors_two_nodes :
  length (new_jobs workflow_HL
            (setup_plotinspiral workflow_HL files_example "ihope.cache" "INSPIRAL"
                                "summary" ["full_data"]).2) = 2
  /\ length (new_jobs workflow_HL
               (setup_plotinspiral workflow_HL files_example "ihope.cache" "INSPIRAL"
                                   "summary" ["full_data"]).2)
     <> length ["full_data"].
Proof. split; [reflexivity | discriminate]. Qed.

(** C2, amended.  For every tag list, [setup_plotnumtemplates] and
    [setup_plotinspiralrange] create exactly [len(tags)] nodes;
    [setup_plotinspiral] creates one node per tag and per detector of the
    workflow, [len(tags) * len(ifos)] nodes. *)
Theorem stage_node_count :
  (forall w fl cache bank out tags,
      length (new_jobs w (setup_plotnumtemplates w fl cache bank out tags).2)
      = length tags) /\
  (forall w fl cache bank pat out tags,
      length (new_jobs w (setup_plotinspiralrange w fl cache bank pat out tags).2)
      = length tags) /\
  (forall w fl cache pat out tags,
      length (new_jobs w (setup_plotinspiral w fl cache pat out tags).2)
      = length tags * length (ifos w)).
Proof.
  split_and!; intros.
  - rewrite setup_plotnumtemplates_eq.
    erewrite new_jobs_length by reflexivity. apply plotnumtemplates_nodes_length.
  - rewrite setup_plotinspiralrange_eq.
    erewrite new_jobs_length by reflexivity. apply plotinspiralrange_nodes_length.
  - rewrite setup_plotinspiral_eq.
    erewrite new_jobs_length by reflexivity. apply plotinspiral_nodes_length.
Qed.

(** ** The detector subsets of the coincidence stage *)

Lemma combinations_gt {A : Type} (l : list A) (r : nat) :
  length l < r -> combinations l r = [].
Proof.
  intros H. apply nil_length_inv. rewrite combinations_length. by apply binom_gt.
Qed.

Lemma flat_map_seq_shift {A : Type} (f : nat -> list A) (d : nat) : forall m s,
  flat_map (fun n => f (n + d)) (seq s m) = flat_map f (seq (s + d) m).
Proof.
  induction m as [|m IH]; intros s; simpl; [done |].
  by rewrite (IH (S s)).
Qed.

Lemma flat_map_nil_on {A B : Type} (f : A -> list B) (l : list A) :
  (forall x, x ∈ l -> f x = []) -> flat_map f l = [].
Proof.
  induction l as [|x l IH]; intros H; simpl; [done |].
  rewrite (H x), IH; [done | | by left].
  intros y Hy. apply H. by right.
Qed.

(** Sizes 2 to [k], in this order; the two further sizes that the loop
    tries yield nothing. *)
Lemma ifo_combos_of_by_size (l : list string) :
  ifo_combos_of l = flat_map (combinations l) (seq 2 (length l - 1)).
Proof.
  rewrite ifo_combos_of_eq, (flat_map_seq_shift (combinations l) 2). simpl.
  destruct (length l) as [|k] eqn:Hk.
  - simpl. rewrite combinations_gt; [done | lia].
  - replace (S k + 1) with (k + 2) by lia.
    replace (S k - 1) with k by lia.
    rewrite seq_app, flat_map_app.
    rewrite (flat_map_nil_on _ (seq _ 2)); [by rewrite app_nil_r |].
    intros i Hi. apply elem_of_seq in Hi. apply combinations_gt. lia.
Qed.

(** C3.  For a detector list of size [k], [setup_plotthinca] enumerates
    the sum of C(k, i) for [i] from 2 to [k] detector subsets: the
    combinations of every size from 2 to [k], size after size, each size in
    the order of [itertools.combinations]; it builds one node per tag for
    each, in that order, and a second call with the same arguments on the
    workflow that the first one leaves builds the same nodes in the same
    order. *)
Theorem plotthinca_detector_subsets :
  (forall l : list string,
      length (ifo_combos_of l) = sum_range (binom (length l)) 2 (length l)) /\
  (forall l c : list string,
      c ∈ ifo_combos_of l <-> c `sublist_of` l /\ 2 <= length c <= length l) /\
  (forall l : list string,
      ifo_combos_of l = flat_map (combinations l) (seq 2 (length l - 1))) /\
  (forall w fl cache coinc slide out tags,
      let w1 := (setup_plotthinca w fl cache coinc slide out tags).2 in
      let w2 := (setup_plotthinca w1 fl cache coinc slide out tags).2 in
      (new_jobs w w1).*2
      = flat_map (fun tag =>
          map (plotthinca_node w cache coinc slide out tags tag)
              (ifo_combos_of (ifos w))) tags /\
      ifos w1 = ifos w /\
      (new_jobs w1 w2).*2 = (new_jobs w w1).*2).
Proof.
  split_and!.
  - apply ifo_combos_of_length.
  - intros l c. rewrite elem_of_ifo_combos_of. split.
    + intros [Hs Hlen]. split_and!; try done. by apply sublist_length.
    + intros (Hs & Hlen & _). done.
  - apply ifo_combos_of_by_size.
  - intros w fl cache coinc slide out tags w1 w2. subst w1 w2.
    rewrite !setup_plotthinca_eq. cbn [snd].
    erewrite !new_jobs_nodes by reflexivity.
    split_and!; reflexivity.
Qed.

(** C4.  With the detectors H1, L1, V1 and the single tag [full_data],
    [setup_plotthinca] creates exactly 4 nodes, one for each of the subsets
    {H1,L1}, {H1,V1}, {L1,V1}, {H1,L1,V1}, in this order, and the one
    [--ifo-tag] option of each node is [SECOND_] followed by the
    concatenated detector identifiers of its subset. *)
Theorem plotthinca_H1_L1_V1 :
  forall (c : Config) (t : Z * Z) (g : ADAG) (fl : FileList)
         (cache coinc slide out : string),
    let w := {| cp := c; ifos := ["H1"; "L1"; "V1"]; analysis_time := t; _adag := g |} in
    let w' := (setup_plotthinca w fl cache coinc slide out ["full_data"]).2 in
    ifo_combos_of (ifos w)
    = [["H1"; "L1"]; ["H1"; "V1"]; ["L1"; "V1"]; ["H1"; "L1"; "V1"]] /\
    length (new_jobs w w') = 4 /\
    (new_jobs w w').*2
    = map (plotthinca_node w cache coinc slide out ["full_data"] "full_data")
          [["H1"; "L1"]; ["H1"; "V1"]; ["L1"; "V1"]; ["H1"; "L1"; "V1"]] /\
    map (fun node => opt_values node "--ifo-tag") (new_jobs w w').*2
    = [ [Some (VStr "SECOND_H1L1")]; [Some (VStr "SECOND_H1V1")];
        [Some (VStr "SECOND_L1V1")]; [Some (VStr "SECOND_H1L1V1")] ].
Proof.
  intros c t g fl cache coinc slide out w w'. subst w'.
  rewrite setup_plotthinca_eq. cbn [snd].
  erewrite new_jobs_length, new_jobs_nodes by reflexivity.
  split_and!; reflexivity.
Qed.

(** ** Empty tag lists *)

(** C5, as stated, fails for [setup_hardware_injection_page]: the routine
    does not loop over the tags, and with [tags = []] it still registers
    its node and links it to the input file. *)
Lemma hardware_injection_page_empty_tags_registers_node :
  let r := setup_hardware_injection_page env_ok files_example "ihope.cache"
             "INSPIRAL" "summary" [] state_HL in
  r.1 = Ok [] /\
  length (new_jobs workflow_HL (workflow r.2)) = 1 /\
  jobs (_adag (workflow r.2)) <> jobs (_adag workflow_HL) /\
  dependencies (_adag (workflow r.2)) <> dependencies (_adag workflow_HL).
Proof. vm_compute. split_and!; [reflexivity | reflexivity | discriminate | discriminate]. Qed.

(** C5, amended.  Each of the four plot stages, called with [tags = []],
    returns an empty file list, creates no node and leaves the workflow,
    with its node and edge collections, unchanged.
    [setup_hardware_injection_page] called with [tags = []] returns an
    empty file list too, but it does not loop over the tags: when it
    returns it has registered exactly one node, with one edge per input
    file. *)
Theorem stage_empty_tags :
  (forall w fl cache pat out,
      setup_plotinspiral w fl cache pat out [] = ([], w)) /\
  (forall w fl cache bank out,
      setup_plotnumtemplates w fl cache bank out [] = ([], w)) /\
  (forall w fl cache coinc slide out,
      setup_plotthinca w fl cache coinc slide out [] = ([], w)) /\
  (forall w fl cache bank pat out,
      setup_plotinspiralrange w fl cache bank pat out [] = ([], w)) /\
  (forall env fl cache pat out st files st',
      setup_hardware_injection_page env fl cache pat out [] st = (Ok files, st') ->
      files = [] /\
      length (new_jobs (workflow st) (workflow st')) = 1 /\
      length (new_dependencies (workflow st) (workflow st')) = length fl).
Proof.
  split_and!; try reflexivity.
  intros env fl cache pat out st files st' Hrun.
  pose proof (setup_hardware_injection_page_spec env fl cache pat out [] st) as H.
  apply (wp_returns _ _ _ _ _ _ H) in Hrun as (-> & _ & _ & path & Hreg).
  split_and!; [done | | ].
  - by rewrite (new_jobs_length _ _ _ _ Hreg).
  - rewrite (new_dependencies_length _ _ _ _ Hreg), (new_jobs_length _ _ _ _ Hreg).
    simpl. lia.
Qed.

Lemma stage_empty_tags_witness :
  (setup_hardware_injection_page env_ok files_example "ihope.cache" "INSPIRAL"
     "summary" [] state_HL).1 = Ok [] /\
  length (new_jobs workflow_HL
            (workflow (setup_hardware_injection_page env_ok files_example
                         "ihope.cache" "INSPIRAL" "summary" [] state_HL).2)) = 1.
Proof.
  destruct stage_empty_tags as (_ & _ & _ & _ & H).
  split; [vm_compute; reflexivity |].
  apply (H env_ok files_example "ihope.cache" "INSPIRAL" "summary" state_HL []).
  vm_compute. reflexivity.
Defined.

(** ** The dispatcher *)

Lemma setup_summary_plots_run env fl cache bank pat out tags st :
  let r1 := setup_plotinspiral (workflow st) fl cache pat out tags in
  let r2 := setup_plotinspiralrange r1.2 fl cache bank pat out tags in
  let r3 := setup_plotnumtemplates r2.2 fl cache bank out tags in
  setup_summary_plots env fl cache bank pat out tags st
  = if bool_decide (out ∈ fs st) then
      (Ok (r1.1 ++ r2.1 ++ r3.1), {| workflow := r3.2; fs := fs st |})
    else if (makedirs_fs (mkdir_permitted env) (fs st) out).1 then
      (Ok (r1.1 ++ r2.1 ++ r3.1),
       {| workflow := r3.2;
          fs := (makedirs_fs (mkdir_permitted env) (fs st) out).2 |})
    else
      (Raise OSError,
       {| workflow := workflow st;
          fs := (makedirs_fs (mkdir_permitted env) (fs st) out).2 |}).
Proof.
  intros r1 r2 r3. subst r1 r2 r3.
  unfold setup_summary_plots, mbind, M_bind, path_exists, makedirs, call, mret, M_ret.
  cbv zeta.
  destruct (bool_decide (out ∈ fs st)) eqn:Hex; cbn [negb workflow fs].
  - rewrite !setup_plotinspiral_eq, !setup_plotinspiralrange_eq,
      !setup_plotnumtemplates_eq. reflexivity.
  - destruct (makedirs_fs (mkdir_permitted env) (fs st) out).1; [| done].
    cbn [workflow fs].
    rewrite !setup_plotinspiral_eq, !setup_plotinspiralrange_eq,
      !setup_plotnumtemplates_eq. reflexivity.
Qed.

Lemma map_replicate_const {X Y : Type} (g : X -> Y) (c : Y) (l : list X) :
  Forall (fun x => g x = c) l -> map g l = replicate (length l) c.
Proof. induction 1 as [|x l Hx _ IH]; simpl; [done | by rewrite Hx, IH]. Qed.

Lemma Forall_flat_map_all {X Y : Type} (P : Y -> Prop) (f : X -> list Y)
    (l : list X) :
  (forall x, Forall P (f x)) -> Forall P (flat_map f l).
Proof.
  intros H. induction l as [|x l IH]; simpl; [done |].
  apply Forall_app. by split.
Qed.

Lemma Forall_flat_map_singleton {X Y : Type} (P : Y -> Prop) (f : X -> Y)
    (l : list X) :
  (forall x, P (f x)) -> Forall P (flat_map (fun x => [f x]) l).
Proof. intros H. apply Forall_flat_map_all. intros x. by constructor. Qed.

Lemma plotinspiral_nodes_names w cache pat out tags :
  map (fun n => name (executable n)) (plotinspiral_nodes w cache pat out tags)
  = replicate (length tags * length (ifos w)) "plotinspiral".
Proof.
  rewrite <- (plotinspiral_nodes_length w cache pat out tags).
  apply map_replicate_const. apply Forall_flat_map_all.
  intros tag. by apply Forall_flat_map_singleton.
Qed.

Lemma plotinspiralrange_nodes_names w cache bank pat out tags :
  map (fun n => name (executable n)) (plotinspiralrange_nodes w cache bank pat out tags)
  = replicate (length tags) "plotinspiralrange".
Proof.
  rewrite <- (plotinspiralrange_nodes_length w cache bank pat out tags).
  apply map_replicate_const. by apply Forall_flat_map_singleton.
Qed.

Lemma plotnumtemplates_nodes_names w cache bank out tags :
  map (fun n => name (executable n)) (plotnumtemplates_nodes w cache bank out tags)
  = replicate (length tags) "plotnumtemplates".
Proof.
  rewrite <- (plotnumtemplates_nodes_length w cache bank out tags).
  apply map_replicate_const. by apply Forall_flat_map_singleton.
Qed.

Lemma summary_plots_workflow w fl cache bank pat out tags :
  let r1 := setup_plotinspiral w fl cache pat out tags in
  let r2 := setup_plotinspiralrange r1.2 fl cache bank pat out tags in
  let r3 := setup_plotnumtemplates r2.2 fl cache bank out tags in
  _adag r3.2
  = register_all (_adag w) fl
      (plotinspiral_nodes w cache pat out tags
       ++ plotinspiralrange_nodes w cache bank pat out tags
       ++ plotnumtemplates_nodes w cache bank out tags).
Proof.
  intros r1 r2 r3. subst r1 r2 r3.
  rewrite setup_plotinspiral_eq; cbn [snd].
  rewrite setup_plotinspiralrange_eq; cbn [snd].
  rewrite setup_plotnumtemplates_eq; cbn [snd _adag with_adag].
  by rewrite !register_all_app.
Qed.

(** C6.  The dispatcher creates its output directory and then calls
    [setup_plotinspiral], [setup_plotinspiralrange] and
    [setup_plotnumtemplates], in this order, each on the workflow that the
    one before it leaves; it returns the concatenation of their file lists
    in the same order.  The nodes it registers are those of the three
    stages in that order, and none belongs to the coincidence stage
    [plotthinca], which the dispatcher does not call. *)
Theorem setup_summary_plots_order :
  forall env fl cache bank pat out tags st,
    let r1 := setup_plotinspiral (workflow st) fl cache pat out tags in
    let r2 := setup_plotinspiralrange r1.2 fl cache bank pat out tags in
    let r3 := setup_plotnumtemplates r2.2 fl cache bank out tags in
    let r := setup_summary_plots env fl cache bank pat out tags st in
    (if bool_decide (out ∈ fs st)
        || (makedirs_fs (mkdir_permitted env) (fs st) out).1
     then r.1 = Ok (r1.1 ++ r2.1 ++ r3.1) /\ workflow r.2 = r3.2
     else r = (Raise OSError,
               {| workflow := workflow st;
                  fs := (makedirs_fs (mkdir_permitted env) (fs st) out).2 |})) /\
    map (fun n => name (executable n)) (new_jobs (workflow st) r3.2).*2
    = replicate (length tags * length (ifos (workflow st))) "plotinspiral"
      ++ replicate (length tags) "plotinspiralrange"
      ++ replicate (length tags) "plotnumtemplates" /\
    "plotthinca" ∉ map (fun n => name (executable n))
                       (new_jobs (workflow st) (workflow r.2)).*2.
Proof.
  intros env fl cache bank pat out tags st r1 r2 r3 r.
  pose proof (setup_summary_plots_run env fl cache bank pat out tags st) as Hrun.
  pose proof (summary_plots_workflow (workflow st) fl cache bank pat out tags) as Hw.
  cbv zeta in Hrun, Hw. fold r1 r2 r3 in Hrun, Hw. fold r in Hrun.
  assert (Hnames :
    map (fun n => name (executable n)) (new_jobs (workflow st) r3.2).*2
    = replicate (length tags * length (ifos (workflow st))) "plotinspiral"
      ++ replicate (length tags) "plotinspiralrange"
      ++ replicate (length tags) "plotnumtemplates").
  { rewrite (new_jobs_nodes _ _ _ _ Hw), !map_app.
    by rewrite plotinspiral_nodes_names, plotinspiralrange_nodes_names,
      plotnumtemplates_nodes_names. }
  assert (Hno : "plotthinca" ∉ map (fun n => name (executable n))
                                   (new_jobs (workflow st) r3.2).*2).
  { rewrite Hnames, !elem_of_app.
    intros [H | [H | H]]; apply elem_of_replicate in H as [H _]; discriminate. }
  split_and!; [| done |].
  - rewrite Hrun.
    destruct (bool_decide (out ∈ fs st)); [done |].
    by destruct (makedirs_fs (mkdir_permitted env) (fs st) out).1.
  - rewrite Hrun.
    destruct (bool_decide (out ∈ fs st)); [done |].
    destruct (makedirs_fs (mkdir_permitted env) (fs st) out).1; [done |].
    cbn [snd workflow]. unfold new_jobs. rewrite drop_all. by intros ?%elem_of_nil.
Qed.

(** ** Failures of the hardware injection page *)

Lemma foldl_snoc_map {X Y : Type} (f : X -> Y) (l : list X) : forall acc,
  foldl (fun acc x => acc ++ [f x]) acc l = acc ++ map f l.
Proof.
  induction l as [|x l IH]; intros acc; simpl.
  - by rewrite app_nil_r.
  - by rewrite IH, <- app_assoc.
Qed.

(** The page returns only after the definer document was fetched and the
    segment query, with the command line built for it, succeeded. *)
Lemma setup_hardware_injection_page_returns_after_calls env fl cache pat out tags st :
  wp (setup_hardware_injection_page env fl cache pat out tags)
     (fun _ _ =>
        exists url exe db,
          lookup_opt_tags (cp (workflow st)) "workflow-hardware-injections"
                          "hwinj-definer-url" tags = Some url /\
          urlretrieve_ok env url = true /\
          cp_lookup (cp (workflow st)) "executables" "hardware_injection_page"
          = Some exe /\
          cp_lookup (cp (workflow st)) "workflow-segments" "segments-database-url"
          = Some db /\
          external_call_ok env
            (hwinjseg_command (workflow st) exe db out
                              (path_join out (basename url))) = true)
     (fun _ _ => True)
     st.
Proof.
  unfold setup_hardware_injection_page, get_hardware_injection_segment_files.
  wp_run; try done.
  all: cbn [cp with_cp analysis_time ifos] in *; unfold Config in *.
  all: rewrite ?foldl_snoc_map in *.
  all: repeat match goal with
              | H : <[_ := _]> _ !! _ = _ |- _ => rewrite lookup_insert_ne in H by done
              end.
  all: eexists _, _, _; unfold cp_lookup, hwinjseg_command, Config.
  all: repeat match goal with
              | H : cp _ !! _ = Some _ |- _ => rewrite H; clear H
              end.
  all: cbn [mbind option_bind]; split_and!; first [reflexivity | eassumption].
Qed.

(** C7.  In [setup_hardware_injection_page], whatever raises leaves the
    DAG without any new node or edge; the routine raises when the definer
    document cannot be fetched (no URL is configured, or the retrieval
    fails) and when the external segment query, that is the command line
    the routine builds for it, fails; and it returns only if the retrieval
    of the configured URL and that very command both succeeded. *)
Theorem hardware_injection_page_failure_registers_nothing :
  forall env fl cache pat out tags st,
    let r := setup_hardware_injection_page env fl cache pat out tags st in
    let w := workflow st in
    let definer_url url :=
      lookup_opt_tags (cp w) "workflow-hardware-injections" "hwinj-definer-url" tags
      = Some url in
    let segment_query url exe db :=
      hwinjseg_command w exe db out (path_join out (basename url)) in
    (forall e, r.1 = Raise e -> _adag (workflow r.2) = _adag w) /\
    ((forall url, definer_url url -> urlretrieve_ok env url = false) ->
     exists e, r.1 = Raise e /\ _adag (workflow r.2) = _adag w) /\
    ((forall url exe db,
         definer_url url ->
         cp_lookup (cp w) "executables" "hardware_injection_page" = Some exe ->
         cp_lookup (cp w) "workflow-segments" "segments-database-url" = Some db ->
         external_call_ok env (segment_query url exe db) = false) ->
     exists e, r.1 = Raise e /\ _adag (workflow r.2) = _adag w) /\
    (forall files, r.1 = Ok files ->
       exists url exe db,
         definer_url url /\
         urlretrieve_ok env url = true /\
         cp_lookup (cp w) "executables" "hardware_injection_page" = Some exe /\
         cp_lookup (cp w) "workflow-segments" "segments-database-url" = Some db /\
         external_call_ok env (segment_query url exe db) = true).
Proof.
  intros env fl cache pat out tags st r w definer_url segment_query.
  pose proof (setup_hardware_injection_page_spec env fl cache pat out tags st) as Hspec.
  pose proof (setup_hardware_injection_page_returns_after_calls
                env fl cache pat out tags st) as Hcalls.
  unfold wp in Hspec, Hcalls. subst r w definer_url segment_query.
  destruct (setup_hardware_injection_page env fl cache pat out tags st)
    as [[files | e] st']; cbn [fst snd].
  - destruct Hcalls as (url & exe & db & Hurl & Hok & Hexe & Hdb & Hcmd).
    split_and!.
    + discriminate.
    + intros Hfail. rewrite (Hfail url Hurl) in Hok. discriminate.
    + intros Hfail. rewrite (Hfail url exe db Hurl Hexe Hdb) in Hcmd. discriminate.
    + intros ? _. exists url, exe, db. done.
  - split_and!.
    + done.
    + eauto.
    + eauto.
    + discriminate.
Qed.

Lemma hardware_injection_page_failure_registers_nothing_witness :
  (exists e,
      (setup_hardware_injection_page env_offline files_example "ihope.cache"
         "INSPIRAL" "summary" [] state_HL).1 = Raise e /\
      _adag (workflow (setup_hardware_injection_page env_offline files_example
                         "ihope.cache" "INSPIRAL" "summary" [] state_HL).2)
      = _adag (workflow state_HL)) /\
  (exists e,
      (setup_hardware_injection_page env_query_fails files_example "ihope.cache"
         "INSPIRAL" "summary" [] state_HL).1 = Raise e /\
      _adag (workflow (setup_hardware_injection_page env_query_fails files_example
                         "ihope.cache" "INSPIRAL" "summary" [] state_HL).2)
      = _adag (workflow state_HL)).
Proof.
  split.
  - destruct (hardware_injection_page_failure_registers_nothing
                env_offline files_example "ihope.cache" "INSPIRAL" "summary" []
                state_HL) as (_ & Hfetch & _ & _).
    apply Hfetch. intros url _. reflexivity.
  - destruct (hardware_injection_page_failure_registers_nothing
                env_query_fails files_example "ihope.cache" "INSPIRAL" "summary" []
                state_HL) as (_ & _ & Hquery & _).
    apply Hquery. intros url exe db _ _ _. reflexivity.
Defined.

(** ** Case normalization of tags and detectors *)

Lemma string_length_app (a b : string) :
  String.length (a +:+ b) = String.length a + String.length b.
Proof.
  induction a as [|c a IH]; [done |].
  change (S (String.length (a +:+ b)) = S (String.length a + String.length b)).
  by rewrite IH.
Qed.

(** A per-detector flag is never the [--user-tag] flag. *)
Lemma detector_flag_not_user_tag (s suffix : string) :
  9 <= String.length suffix -> "--" +:+ s +:+ suffix <> "--user-tag".
Proof.
  intros Hlen Heq. apply (f_equal String.length) in Heq.
  rewrite !string_length_app in Heq. simpl in Heq. lia.
Qed.

Lemma lower_lower (s : string) : lower (lower s) = lower s.
Proof.
  induction s as [|c s IH]; simpl; [done |]. rewrite IH. f_equal.
  clear. destruct c as [[] [] [] [] [] [] [] []]; reflexivity.
Qed.

Lemma upper_upper (s : string) : upper (upper s) = upper s.
Proof.
  induction s as [|c s IH]; simpl; [done |]. rewrite IH. f_equal.
  clear. destruct c as [[] [] [] [] [] [] [] []]; reflexivity.
Qed.

Ltac elem_of_explicit H :=
  repeat (apply elem_of_cons in H as [H | H];
          [try discriminate H | ]);
  try (apply elem_of_nil in H; contradiction).

Ltac elem_of_here := repeat first [apply list_elem_of_here | apply list_elem_of_further].

(** The flag of an option taken from an explicit list is in the list of
    fixed flags. *)
Ltac flag_is_fixed H :=
  repeat (apply elem_of_cons in H as [H | H];
          [apply (f_equal fst) in H; cbn [fst] in H; rewrite H; elem_of_here | ]);
  apply elem_of_nil in H; contradiction.

Lemma plotinspiral_node_user_tag w cache pat out tags tag ifo :
  user_tag_normalized tag (plotinspiral_node w cache pat out tags tag ifo).
Proof.
  split; simpl.
  - elem_of_here.
  - intros v Hv. elem_of_explicit Hv. by injection Hv.
Qed.

Lemma plotnumtemplates_node_user_tag w cache bank out tags tag :
  user_tag_normalized tag (plotnumtemplates_node w cache bank out tags tag).
Proof.
  split; simpl.
  - elem_of_here.
  - intros v Hv. elem_of_explicit Hv. by injection Hv.
Qed.

Lemma plotinspiralrange_node_user_tag w cache bank pat out tags tag :
  user_tag_normalized tag (plotinspiralrange_node w cache bank pat out tags tag).
Proof.
  split; simpl.
  - elem_of_here.
  - intros v Hv. elem_of_explicit Hv. by injection Hv.
Qed.

Lemma plotthinca_node_user_tag w cache coinc slide out tags tag ifo_list :
  user_tag_normalized tag
    (plotthinca_node w cache coinc slide out tags tag ifo_list).
Proof.
  split; cbn [plotthinca_node _options].
  - rewrite !elem_of_app. right. right. elem_of_here.
  - intros v Hv. rewrite !elem_of_app in Hv. destruct Hv as [Hv | [Hv | Hv]].
    + elem_of_explicit Hv.
    + apply list_elem_of_fmap in Hv as (ifo & Heq & _).
      apply (f_equal fst) in Heq. cbn [fst] in Heq. symmetry in Heq.
      apply detector_flag_not_user_tag in Heq; [done | simpl; lia].
    + elem_of_explicit Hv. by injection Hv.
Qed.

Lemma plotthinca_node_detector_flags w cache coinc slide out tags tag ifo_list :
  detector_flags_lowercase plotthinca_flags "-triggers" ifo_list
    (plotthinca_node w cache coinc slide out tags tag ifo_list).
Proof.
  split; cbn [plotthinca_node _options].
  - intros flag v Hv. rewrite !elem_of_app in Hv. destruct Hv as [Hv | [Hv | Hv]].
    + left. unfold plotthinca_flags. flag_is_fixed Hv.
    + right. apply list_elem_of_fmap in Hv as (ifo & Heq & Hifo).
      apply (f_equal fst) in Heq. cbn [fst] in Heq. eauto.
    + left. unfold plotthinca_flags. flag_is_fixed Hv.
  - intros ifo Hifo. exists (Some (VStr "")).
    rewrite !elem_of_app. right. left.
    by apply (list_elem_of_fmap_2
                (fun ifo => ("--" +:+ lower ifo +:+ "-triggers", Some (VStr "")))).
Qed.

Lemma hwinj_node_no_user_tag w cache pat out tags path v :
  ("--user-tag", v) ∉ _options (hwinj_node w cache pat out tags path).
Proof.
  cbn [hwinj_node _options]. rewrite !elem_of_app. intros [Hv | [Hv | Hv]].
  - elem_of_explicit Hv.
  - apply list_elem_of_fmap in Hv as (ifo & Heq & _).
    apply (f_equal fst) in Heq. cbn [fst] in Heq. symmetry in Heq.
    apply detector_flag_not_user_tag in Heq; [done | simpl; lia].
  - elem_of_explicit Hv.
Qed.

Lemma hwinj_node_detector_flags w cache pat out tags path :
  detector_flags_lowercase hwinj_flags "-injections" (ifos w)
    (hwinj_node w cache pat out tags path).
Proof.
  split; cbn [hwinj_node _options].
  - intros flag v Hv. rewrite !elem_of_app in Hv. destruct Hv as [Hv | [Hv | Hv]].
    + left. unfold hwinj_flags. flag_is_fixed Hv.
    + right. apply list_elem_of_fmap in Hv as (ifo & Heq & Hifo).
      apply (f_equal fst) in Heq. cbn [fst] in Heq. eauto.
    + left. unfold hwinj_flags. flag_is_fixed Hv.
  - intros ifo Hifo. exists (Some (VStr "")).
    rewrite !elem_of_app. right. left.
    by apply (list_elem_of_fmap_2
                (fun ifo => ("--" +:+ lower ifo +:+ "-injections", Some (VStr "")))).
Qed.

Lemma elem_of_flat_map {X Y : Type} (f : X -> list Y) (l : list X) (y : Y) :
  y ∈ flat_map f l <-> exists x, x ∈ l /\ y ∈ f x.
Proof.
  rewrite list_elem_of_In, in_flat_map. split.
  - intros (x & Hx & Hy). exists x. by rewrite !list_elem_of_In.
  - intros (x & Hx & Hy). exists x. by rewrite <- !list_elem_of_In.
Qed.

(** C8.  Tag and detector case is normalized the same way by every
    routine that creates nodes.  Each node of the four plot stages has a
    [--user-tag] option, and the value of every [--user-tag] option is the
    upper-cased tag of its turn followed by [_SUMMARY_PLOTS]; the node of
    the hardware injection page has no [--user-tag] option.  The
    per-detector flags, [--<ifo>-triggers] of the coincidence stage and
    [--<ifo>-injections] of the hardware injection page, are built from
    the lower-cased detector identifier, one for each detector of the
    subset (of the workflow, for the page), and every other flag is one of
    the fixed flags of the stage. *)
Theorem tag_case_normalization :
  (forall w fl cache pat out tags node,
      node ∈ (new_jobs w (setup_plotinspiral w fl cache pat out tags).2).*2 ->
      exists tag, tag ∈ tags /\ user_tag_normalized tag node) /\
  (forall w fl cache bank out tags node,
      node ∈ (new_jobs w (setup_plotnumtemplates w fl cache bank out tags).2).*2 ->
      exists tag, tag ∈ tags /\ user_tag_normalized tag node) /\
  (forall w fl cache bank pat out tags node,
      node ∈ (new_jobs w (setup_plotinspiralrange w fl cache bank pat out tags).2).*2 ->
      exists tag, tag ∈ tags /\ user_tag_normalized tag node) /\
  (forall w fl cache coinc slide out tags node,
      node ∈ (new_jobs w (setup_plotthinca w fl cache coinc slide out tags).2).*2 ->
      exists tag ifo_list,
        tag ∈ tags /\ ifo_list ∈ ifo_combos_of (ifos w) /\
        user_tag_normalized tag node /\
        detector_flags_lowercase plotthinca_flags "-triggers" ifo_list node) /\
  (forall env fl cache pat out tags st files st' node,
      setup_hardware_injection_page env fl cache pat out tags st = (Ok files, st') ->
      node ∈ (new_jobs (workflow st) (workflow st')).*2 ->
      (forall v, ("--user-tag", v) ∉ _options node) /\
      detector_flags_lowercase hwinj_flags "-injections" (ifos (workflow st)) node).
Proof.
  split_and!.
  - intros w fl cache pat out tags node.
    rewrite setup_plotinspiral_eq. cbn [snd].
    erewrite new_jobs_nodes by reflexivity.
    intros (tag & Htag & (ifo & _ & Hnode%list_elem_of_singleton)%elem_of_flat_map)%elem_of_flat_map.
    subst node. exists tag. split; [done |]. apply plotinspiral_node_user_tag.
  - intros w fl cache bank out tags node.
    rewrite setup_plotnumtemplates_eq. cbn [snd].
    erewrite new_jobs_nodes by reflexivity.
    intros (tag & Htag & Hnode%list_elem_of_singleton)%elem_of_flat_map.
    subst node. exists tag. split; [done |]. apply plotnumtemplates_node_user_tag.
  - intros w fl cache bank pat out tags node.
    rewrite setup_plotinspiralrange_eq. cbn [snd].
    erewrite new_jobs_nodes by reflexivity.
    intros (tag & Htag & Hnode%list_elem_of_singleton)%elem_of_flat_map.
    subst node. exists tag. split; [done |]. apply plotinspiralrange_node_user_tag.
  - intros w fl cache coinc slide out tags node.
    rewrite setup_plotthinca_eq. cbn [snd].
    erewrite new_jobs_nodes by reflexivity.
    intros (tag & Htag & (c & Hc & Hnode%list_elem_of_singleton)%elem_of_flat_map)%elem_of_flat_map.
    subst node. exists tag, c. split_and!; [done | done | |].
    + apply plotthinca_node_user_tag.
    + apply plotthinca_node_detector_flags.
  - intros env fl cache pat out tags st files st' node Hrun.
    pose proof (setup_hardware_injection_page_spec env fl cache pat out tags st) as H.
    apply (wp_returns _ _ _ _ _ _ H) in Hrun as (_ & _ & _ & path & Hreg).
    rewrite (new_jobs_nodes _ _ _ _ Hreg).
    intros ->%list_elem_of_singleton. split.
    + intros v. apply hwinj_node_no_user_tag.
    + apply hwinj_node_detector_flags.
Qed.

Lemma tag_case_normalization_witness :
  (exists tag,
      tag ∈ ["full_data"] /\
      user_tag_normalized tag
        (plotinspiral_node workflow_HL "ihope.cache" "INSPIRAL" "summary"
                           ["full_data"] "full_data" "H1")) /\
  (exists tag ifo_list,
      tag ∈ ["full_data"] /\ ifo_list ∈ ifo_combos_of (ifos workflow_HL) /\
      user_tag_normalized tag
        (plotthinca_node workflow_HL "ihope.cache" "COINC" "SLIDE" "summary"
                         ["full_data"] "full_data" ["H1"; "L1"]) /\
      detector_flags_lowercase plotthinca_flags "-triggers" ifo_list
        (plotthinca_node workflow_HL "ihope.cache" "COINC" "SLIDE" "summary"
                         ["full_data"] "full_data" ["H1"; "L1"])).
Proof.
  destruct tag_case_normalization as (Hinsp & _ & _ & Hthinca & _).
  split.
  - apply (Hinsp workflow_HL files_example "ihope.cache" "INSPIRAL" "summary").
    vm_compute. apply list_elem_of_here.
  - apply (Hthinca workflow_HL files_example "ihope.cache" "COINC" "SLIDE" "summary").
    vm_compute. apply list_elem_of_here.
Defined.

(** ** Creating the output directory *)

#[local] Set Warnings "-clear-no-such-hyp".

Ltac decide_paths :=
  repeat match goal with
         | H : bool_decide _ = true |- _ => apply bool_decide_eq_true in H
         | H : bool_decide _ = false |- _ => apply bool_decide_eq_false in H
         end.

(** What is known of the file systems that [os.makedirs] left: they hold
    what was there before, and the leaf when the call returned. *)
Ltac makedirs_facts :=
  repeat match goal with
         | H : (makedirs_fs ?perm ?F ?p).1 = true |- _ =>
             lazymatch goal with
             | _ : p ∈ (makedirs_fs perm F p).2 |- _ => fail
             | _ => pose proof (makedirs_fs_ok perm F p H)
             end
         | |- context [(makedirs_fs ?perm ?F ?p).2] =>
             lazymatch goal with
             | _ : F ⊆ (makedirs_fs perm F p).2 |- _ => fail
             | _ => pose proof (makedirs_fs_mono perm F p)
             end
         | _ : context [(makedirs_fs ?perm ?F ?p).2] |- _ =>
             lazymatch goal with
             | _ : F ⊆ (makedirs_fs perm F p).2 |- _ => fail
             | _ => pose proof (makedirs_fs_mono perm F p)
             end
         end.

Lemma make_dir_if_absent_run env path st :
  make_dir_if_absent env path st
  = if bool_decide (path ∈ fs st) then (Ok tt, st)
    else if (makedirs_fs (mkdir_permitted env) (fs st) path).1
         then (Ok tt, {| workflow := workflow st;
                         fs := (makedirs_fs (mkdir_permitted env) (fs st) path).2 |})
         else (Raise OSError,
               {| workflow := workflow st;
                  fs := (makedirs_fs (mkdir_permitted env) (fs st) path).2 |}).
Proof.
  unfold make_dir_if_absent, mbind, M_bind, path_exists, makedirs, mret, M_ret.
  cbv zeta.
  destruct (bool_decide (path ∈ fs st)) eqn:Hex; cbn [negb]; [done |].
  by destruct (makedirs_fs (mkdir_permitted env) (fs st) path).1.
Qed.

Lemma get_hardware_injection_segment_files_dirs env out path st :
  wp (get_hardware_injection_segment_files env out path)
     (fun _ st' => path_join out "logs" ∈ fs st')
     (fun e _ => path_join out "logs" ∈ fs st -> e <> OSError)
     st.
Proof.
  unfold get_hardware_injection_segment_files.
  wp_run; decide_paths; try done; makedirs_facts; set_solver.
Qed.

Lemma setup_hardware_injection_page_dirs env fl cache pat out tags st :
  wp (setup_hardware_injection_page env fl cache pat out tags)
     (fun _ st' => out ∈ fs st' /\ path_join out "logs" ∈ fs st')
     (fun e _ => out ∈ fs st -> path_join out "logs" ∈ fs st -> e <> OSError)
     st.
Proof.
  unfold setup_hardware_injection_page, get_hardware_injection_segment_files.
  wp_run; decide_paths; try done; makedirs_facts; set_solver.
Qed.

(** C9.  Creating the output directory is idempotent.  The step
    [if not os.path.exists(d): os.makedirs(d)] does nothing and does not
    raise when [d] exists, so after a first run that returned, a second run
    returns and changes nothing.  For the routines that contain it: a call
    of [setup_summary_plots] with an existing output directory returns, and
    calls of [get_hardware_injection_segment_files] and
    [setup_hardware_injection_page] with existing directories do not raise
    [OSError]; and when any of them returns, its directories exist, so that
    a second call finds them. *)
Theorem output_directory_creation_idempotent :
  (forall env path st,
      path ∈ fs st -> make_dir_if_absent env path st = (Ok tt, st)) /\
  (forall env path st st',
      make_dir_if_absent env path st = (Ok tt, st') ->
      path ∈ fs st' /\ make_dir_if_absent env path st' = (Ok tt, st')) /\
  (forall env fl cache bank pat out tags st,
      let r := setup_summary_plots env fl cache bank pat out tags st in
      (out ∈ fs st -> exists files, r.1 = Ok files /\ fs r.2 = fs st) /\
      (forall files, r.1 = Ok files -> out ∈ fs r.2)) /\
  (forall env out path st,
      let r := get_hardware_injection_segment_files env out path st in
      (path_join out "logs" ∈ fs st -> r.1 <> Raise OSError) /\
      (r.1 = Ok tt -> path_join out "logs" ∈ fs r.2)) /\
  (forall env fl cache pat out tags st,
      let r := setup_hardware_injection_page env fl cache pat out tags st in
      (out ∈ fs st -> path_join out "logs" ∈ fs st -> r.1 <> Raise OSError) /\
      (forall files, r.1 = Ok files ->
                     out ∈ fs r.2 /\ path_join out "logs" ∈ fs r.2)).
Proof.
  split_and!.
  - intros env path st Hex. rewrite make_dir_if_absent_run.
    by rewrite bool_decide_eq_true_2.
  - intros env path st st'. rewrite !make_dir_if_absent_run.
    destruct (bool_decide (path ∈ fs st)) eqn:Hex.
    + intros [= <-]. rewrite Hex. by apply bool_decide_eq_true in Hex.
    + destruct (makedirs_fs (mkdir_permitted env) (fs st) path).1 eqn:Hok;
        [| discriminate].
      intros [= <-]. cbn [fs].
      pose proof (makedirs_fs_ok _ _ _ Hok) as Hin.
      by rewrite bool_decide_eq_true_2.
  - intros env fl cache bank pat out tags st r. subst r.
    rewrite setup_summary_plots_run. split.
    + intros Hex. rewrite bool_decide_eq_true_2 by done. eauto.
    + intros files.
      destruct (bool_decide (out ∈ fs st)) eqn:Hex.
      * intros _. by apply bool_decide_eq_true in Hex.
      * destruct (makedirs_fs (mkdir_permitted env) (fs st) out).1 eqn:Hok;
          [| discriminate].
        intros _. cbn [snd fs]. by apply makedirs_fs_ok.
  - intros env out path st r. subst r.
    pose proof (get_hardware_injection_segment_files_dirs env out path st) as H.
    unfold wp in H.
    destruct (get_hardware_injection_segment_files env out path st)
      as [[[] | e] st']; cbn [fst snd]; split; try done.
    intros Hex [= ->]. by apply H.
  - intros env fl cache pat out tags st r. subst r.
    pose proof (setup_hardware_injection_page_dirs env fl cache pat out tags st) as H.
    unfold wp in H.
    destruct (setup_hardware_injection_page env fl cache pat out tags st)
      as [[files | e] st']; cbn [fst snd]; split; try done.
    intros Hout Hlogs [= ->]. by apply H.
Qed.

Lemma output_directory_creation_idempotent_witness :
  make_dir_if_absent env_offline "summary"
    {| workflow := workflow_HL; fs := {["summary"]} |}
  = (Ok tt, {| workflow := workflow_HL; fs := {["summary"]} |}).
Proof.
  destruct output_directory_creation_idempotent as (H & _).
  apply H. vm_compute. reflexivity.
Defined.

(** ** The returned file lists *)

(** C10.  Each of the four plot stages returns an empty file list for
    every input, however many nodes it creates: the list starts empty and
    nothing is appended to it.  So the dispatcher, which concatenates the
    lists of three of them, returns an empty list whenever it returns, that
    is, unless creating the output directory raises. *)
Theorem plot_stages_return_no_files :
  (forall w fl cache pat out tags,
      (setup_plotinspiral w fl cache pat out tags).1 = []) /\
  (forall w fl cache bank out tags,
      (setup_plotnumtemplates w fl cache bank out tags).1 = []) /\
  (forall w fl cache coinc slide out tags,
      (setup_plotthinca w fl cache coinc slide out tags).1 = []) /\
  (forall w fl cache bank pat out tags,
      (setup_plotinspiralrange w fl cache bank pat out tags).1 = []) /\
  (forall env fl cache bank pat out tags st,
      (setup_summary_plots env fl cache bank pat out tags st).1
      = if bool_decide (out ∈ fs st)
           || (makedirs_fs (mkdir_permitted env) (fs st) out).1
        then Ok [] else Raise OSError).
Proof.
  split_and!; try reflexivity.
  intros env fl cache bank pat out tags st.
  rewrite setup_summary_plots_run.
  destruct (bool_decide (out ∈ fs st)); [reflexivity |].
  by destruct (makedirs_fs (mkdir_permitted env) (fs st) out).1.
Qed.

(** * Further properties of the routines *)

(** ** The edges a stage adds *)

Section RegisteredEdges.

Variables (w w' : Workflow) (fl : FileList) (nodes : list Node).
Hypothesis Hreg : _adag w' = register_all (_adag w) fl nodes.

Lemma new_jobs_ids : (new_jobs w w').*1 = seq (sequence (_adag w)) (length nodes).
Proof.
  rewrite (new_jobs_registered _ _ _ _ Hreg). apply fst_zip. by rewrite length_seq.
Qed.

Lemma registered_edges_exact : edges_exact fl w w'.
Proof.
  unfold edges_exact.
  by rewrite (new_dependencies_registered _ _ _ _ Hreg), new_jobs_ids.
Qed.

Lemma registered_sequence :
  sequence (_adag w') = sequence (_adag w) + length (new_jobs w w').
Proof. by rewrite (new_jobs_length _ _ _ _ Hreg), Hreg. Qed.

End RegisteredEdges.

(** X1.  The four plot stages add no edge but those from the input files:
    the edges added are, for each node created and in the order of
    creation, one edge per entry of [input_files] in the order of the list
    (an entry listed twice gives two edges), so exactly
    [len(input_files) * nodes created] edges; and the stages leave the
    configuration, the detectors and the analysis time as they were. *)
Theorem plot_stages_add_only_input_edges :
  (forall w fl cache pat out tags,
      let w' := (setup_plotinspiral w fl cache pat out tags).2 in
      edges_exact fl w w' /\ same_settings w w' /\
      length (new_dependencies w w') = length fl * length (new_jobs w w')) /\
  (forall w fl cache bank out tags,
      let w' := (setup_plotnumtemplates w fl cache bank out tags).2 in
      edges_exact fl w w' /\ same_settings w w' /\
      length (new_dependencies w w') = length fl * length (new_jobs w w')) /\
  (forall w fl cache coinc slide out tags,
      let w' := (setup_plotthinca w fl cache coinc slide out tags).2 in
      edges_exact fl w w' /\ same_settings w w' /\
      length (new_dependencies w w') = length fl * length (new_jobs w w')) /\
  (forall w fl cache bank pat out tags,
      let w' := (setup_plotinspiralrange w fl cache bank pat out tags).2 in
      edges_exact fl w w' /\ same_settings w w' /\
      length (new_dependencies w w') = length fl * length (new_jobs w w')).
Proof.
  split_and!; intros; subst w'.
  - rewrite setup_plotinspiral_eq. cbn [snd]. split_and!.
    + by eapply registered_edges_exact.
    + done.
    + by eapply new_dependencies_length.
  - rewrite setup_plotnumtemplates_eq. cbn [snd]. split_and!.
    + by eapply registered_edges_exact.
    + done.
    + by eapply new_dependencies_length.
  - rewrite setup_plotthinca_eq. cbn [snd]. split_and!.
    + by eapply registered_edges_exact.
    + done.
    + by eapply new_dependencies_length.
  - rewrite setup_plotinspiralrange_eq. cbn [snd]. split_and!.
    + by eapply registered_edges_exact.
    + done.
    + by eapply new_dependencies_length.
Qed.

(** ** The dispatcher as a whole *)

(** X2.  When [setup_summary_plots] returns, every input file's producer is
    a parent of every node of the three stages; it has created
    [len(tags) * (len(ifos) + 2)] nodes and exactly [len(input_files)] edges
    for each of them; the configuration, the detectors and the analysis
    time are as before; and the file system has lost nothing and gained at
    most the output directory and intermediate directories of it, the
    output directory being there. *)
Theorem setup_summary_plots_links_all_stages :
  forall env fl cache bank pat out tags st files st',
    setup_summary_plots env fl cache bank pat out tags st = (Ok files, st') ->
    parents_linked fl (workflow st) (workflow st') /\
    edges_exact fl (workflow st) (workflow st') /\
    length (new_jobs (workflow st) (workflow st'))
    = length tags * (length (ifos (workflow st)) + 2) /\
    same_settings (workflow st) (workflow st') /\
    fs st ⊆ fs st' /\
    out ∈ fs st' /\
    (forall p, p ∈ fs st' -> p ∈ fs st \/ p = out \/ p ∈ intermediate_dirs out).
Proof.
  intros env fl cache bank pat out tags st files st'.
  rewrite setup_summary_plots_run.
  pose proof (summary_plots_workflow (workflow st) fl cache bank pat out tags) as Hw.
  cbv zeta in Hw.
  set (w3 := (setup_plotnumtemplates _ fl cache bank out tags).2) in *.
  assert (Hset : same_settings (workflow st) w3).
  { subst w3. rewrite setup_plotinspiral_eq; cbn [snd].
    rewrite setup_plotinspiralrange_eq; cbn [snd].
    rewrite setup_plotnumtemplates_eq; cbn [snd]. done. }
  assert (Hlen : length (new_jobs (workflow st) w3)
                 = length tags * (length (ifos (workflow st)) + 2)).
  { rewrite (new_jobs_length _ _ _ _ Hw), !length_app.
    rewrite plotinspiral_nodes_length, plotinspiralrange_nodes_length,
      plotnumtemplates_nodes_length. lia. }
  assert (Hdag : parents_linked fl (workflow st) w3 /\ edges_exact fl (workflow st) w3).
  { split; [by eapply registered_parents_linked | by eapply registered_edges_exact]. }
  destruct Hdag as [Hlinked Hedges].
  destruct (bool_decide (out ∈ fs st)) eqn:Hex.
  - intros [= <- <-]. cbn [workflow fs]. apply bool_decide_eq_true in Hex.
    split_and!; try done. intros p Hp. by left.
  - destruct (makedirs_fs (mkdir_permitted env) (fs st) out).1 eqn:Hok;
      [| discriminate].
    intros [= <- <-]. cbn [workflow fs]. split_and!; try done.
    + apply makedirs_fs_mono.
    + by apply makedirs_fs_ok.
    + intros p. apply makedirs_fs_bound.
Qed.

Lemma setup_summary_plots_links_all_stages_witness :
  length (new_jobs workflow_HL
            (workflow (setup_summary_plots env_ok files_example "ihope.cache"
                         "TMPLTBANK" "INSPIRAL" "summary" ["full_data"]
                         state_HL).2))
  = 1 * (2 + 2).
Proof.
  refine (proj1 (proj2 (proj2
    (setup_summary_plots_links_all_stages env_ok files_example "ihope.cache"
       "TMPLTBANK" "INSPIRAL" "summary" ["full_data"] state_HL [] _ _)))).
  vm_compute. reflexivity.
Defined.

(** X3.  With [tags = []] the dispatcher is not a complete no-op: it
    registers nothing and returns an empty list, but it still creates the
    output directory when it is absent, and raises when that fails. *)
Theorem setup_summary_plots_empty_tags :
  forall env fl cache bank pat out st,
    let r := setup_summary_plots env fl cache bank pat out [] st in
    let made := makedirs_fs (mkdir_permitted env) (fs st) out in
    r = (if bool_decide (out ∈ fs st) then (Ok [], st)
         else if made.1
              then (Ok [], {| workflow := workflow st; fs := made.2 |})
              else (Raise OSError, {| workflow := workflow st; fs := made.2 |})) /\
    workflow r.2 = workflow st /\
    (forall files, r.1 = Ok files -> files = [] /\ out ∈ fs r.2).
Proof.
  intros env fl cache bank pat out st r made. subst r made.
  rewrite setup_summary_plots_run. cbn [setup_plotinspiral setup_plotinspiralrange
    setup_plotnumtemplates foldl fst snd app].
  destruct (bool_decide (out ∈ fs st)) eqn:Hex.
  - apply bool_decide_eq_true in Hex. split_and!; [by destruct st | done |].
    by intros files [= <-].
  - destruct (makedirs_fs (mkdir_permitted env) (fs st) out).1 eqn:Hok.
    + split_and!; [done | done |]. intros files [= <-].
      split; [done | by apply makedirs_fs_ok].
    + split_and!; [done | done | discriminate].
Qed.

Lemma setup_summary_plots_empty_tags_witness :
  "out/summary" ∈ fs (setup_summary_plots env_ok files_example "ihope.cache"
                        "TMPLTBANK" "INSPIRAL" "out/summary" [] state_HL).2.
Proof.
  refine (proj2 (proj2 (proj2
    (setup_summary_plots_empty_tags env_ok files_example "ihope.cache"
       "TMPLTBANK" "INSPIRAL" "out/summary" state_HL)) [] _)).
  vm_compute. reflexivity.
Defined.

(** ** How many detector subsets *)

Lemma binom_1 n : binom n 1 = n.
Proof. induction n as [|n IH]; simpl; [done |]. rewrite IH. by destruct n. Qed.

Lemma binom_0 n : binom n 0 = 1.
Proof. by destruct n. Qed.

Lemma binom_SS n k : binom (S n) (S k) = binom n k + binom n (S k).
Proof. done. Qed.

Lemma sum_list_with_seq_S (f : nat -> nat) (m : nat) :
  sum_list_with f (seq 0 (S m)) = sum_list_with f (seq 0 m) + f m.
Proof. rewrite seq_S, sum_list_with_app. simpl. lia. Qed.

(** A row of Pascal's triangle, summed up to a column, is the sum of the
    row above up to that column and up to the one before. *)
Lemma binom_row_step n : forall m,
  sum_list_with (binom (S n)) (seq 0 (S m))
  = sum_list_with (binom n) (seq 0 (S m)) + sum_list_with (binom n) (seq 0 m).
Proof.
  induction m as [|m IH]; [simpl; rewrite !binom_0; lia |].
  rewrite (sum_list_with_seq_S _ (S m)), IH, binom_SS.
  rewrite (sum_list_with_seq_S (binom n) (S m)), (sum_list_with_seq_S (binom n) m).
  lia.
Qed.

Lemma binom_row_sum n : forall m,
  n < m -> sum_list_with (binom n) (seq 0 m) = 2 ^ n.
Proof.
  induction n as [|n IH]; intros m Hm.
  - destruct m as [|m]; [lia |]. simpl.
    rewrite sum_list_with_zero_on; [done |].
    intros i Hi. apply elem_of_seq in Hi. destruct i; [lia | done].
  - destruct m as [|m]; [lia |].
    rewrite binom_row_step, !IH by lia. simpl. lia.
Qed.

Lemma sum_range_binom k : sum_range (binom k) 2 k = 2 ^ k - k - 1.
Proof.
  unfold sum_range.
  destruct k as [|[|k]]; [done | done |].
  pose proof (binom_row_sum (S (S k)) (S (S (S k))) ltac:(lia)) as H.
  change (seq 0 (S (S (S k)))) with (0 :: 1 :: seq 2 (S k)) in H.
  change (sum_list_with (binom (S (S k))) (0 :: 1 :: seq 2 (S k)))
    with (binom (S (S k)) 0 + (binom (S (S k)) 1
          + sum_list_with (binom (S (S k))) (seq 2 (S k)))) in H.
  rewrite binom_0, binom_1 in H.
  replace (S (S (S k)) - 2) with (S k) by lia.
  lia.
Qed.

(** X4.  For [k] detectors [setup_plotthinca] creates
    [len(tags) * (2^k - k - 1)] nodes: one per tag for every subset of the
    detectors but the empty one and the [k] singletons.  With fewer than
    two detectors it creates none. *)
Theorem plotthinca_node_count :
  forall w fl cache coinc slide out tags,
    let k := length (ifos w) in
    let w' := (setup_plotthinca w fl cache coinc slide out tags).2 in
    length (ifo_combos_of (ifos w)) = 2 ^ k - k - 1 /\
    length (new_jobs w w') = length tags * (2 ^ k - k - 1) /\
    (k < 2 -> new_jobs w w' = []).
Proof.
  intros w fl cache coinc slide out tags k w'. subst k w'.
  assert (Hcount : length (ifo_combos_of (ifos w))
                   = 2 ^ length (ifos w) - length (ifos w) - 1)
    by (by rewrite ifo_combos_of_length, sum_range_binom).
  rewrite setup_plotthinca_eq. cbn [snd].
  erewrite new_jobs_length by reflexivity.
  rewrite plotthinca_nodes_length, Hcount.
  split_and!; [done | done |].
  intros Hk. apply nil_length_inv.
  erewrite new_jobs_length by reflexivity.
  rewrite plotthinca_nodes_length, Hcount.
  destruct (length (ifos w)) as [|[|k]]; simpl; lia.
Qed.

Lemma plotthinca_node_count_witness :
  new_jobs {| cp := ∅; ifos := ["H1"]; analysis_time := (0, 1)%Z;
              _adag := adag_example |}
           (setup_plotthinca
              {| cp := ∅; ifos := ["H1"]; analysis_time := (0, 1)%Z;
                 _adag := adag_example |}
              files_example "ihope.cache" "COINC" "SLIDE" "summary"
              ["full_data"]).2
  = [].
Proof.
  refine (proj2 (proj2
    (plotthinca_node_count
       {| cp := ∅; ifos := ["H1"]; analysis_time := (0, 1)%Z; _adag := adag_example |}
       files_example "ihope.cache" "COINC" "SLIDE" "summary" ["full_data"])) _).
  simpl. lia.
Defined.

(** ** No subset twice *)

Lemma combinations_NoDup {A : Type} (l : list A) :
  NoDup l -> forall r, NoDup (combinations l r).
Proof.
  induction 1 as [|x xs Hx Hxs IH]; intros [|r]; simpl.
  - apply NoDup_singleton.
  - apply NoDup_nil_2.
  - apply NoDup_singleton.
  - apply NoDup_app. split_and!.
    + apply (NoDup_fmap_2 (cons x)). apply IH.
    + intros c (c' & -> & _)%list_elem_of_fmap Hc.
      apply elem_of_combinations in Hc as [Hs _].
      apply Hx. apply (elem_of_sublist (x :: c') xs x); [by left | done].
    + apply IH.
Qed.

Lemma flat_map_NoDup_by_length {A : Type} (f : nat -> list (list A)) (sizes : list nat) :
  NoDup sizes ->
  (forall i, NoDup (f i)) ->
  (forall i c, c ∈ f i -> length c = i) ->
  NoDup (flat_map f sizes).
Proof.
  intros His Hf Hlen. induction His as [|i sizes Hi His IH]; simpl.
  - apply NoDup_nil_2.
  - apply NoDup_app. split_and!; [apply Hf | | apply IH].
    intros c Hc (j & Hj & Hcj)%elem_of_flat_map.
    apply Hlen in Hc, Hcj. subst. done.
Qed.

(** X5.  When the detectors are pairwise distinct, [setup_plotthinca]
    enumerates no detector subset twice. *)
Theorem ifo_combos_no_duplicates :
  forall l : list string, NoDup l -> NoDup (ifo_combos_of l).
Proof.
  intros l Hl. rewrite ifo_combos_of_by_size.
  apply flat_map_NoDup_by_length.
  - apply NoDup_seq.
  - intros i. by apply combinations_NoDup.
  - intros i c Hc. by apply elem_of_combinations in Hc as [_ ?].
Qed.

Lemma ifo_combos_no_duplicates_witness : NoDup (ifo_combos_of ["H1"; "L1"; "V1"]).
Proof.
  apply ifo_combos_no_duplicates.
  repeat (apply NoDup_cons; split; [rewrite ?elem_of_cons, ?elem_of_nil;
                                    intros H; repeat destruct H as [H | H];
                                    try discriminate H; contradiction |]).
  apply NoDup_nil_2.
Defined.

(** ** The segment query *)

Lemma cp_lookup_Some c section opt v :
  cp_lookup c section opt = Some v <->
  exists opts, c !! section = Some opts /\ opts !! opt = Some v.
Proof.
  unfold cp_lookup. destruct (c !! section) as [opts|]; simpl.
  - split; [eauto |]. by intros (? & [= <-] & ?).
  - split; [done |]. by intros (? & ? & _).
Qed.

(** What a run of the segment query leaves and why it ends as it does. *)
Lemma get_hardware_injection_segment_files_spec env out path st :
  let logs := path_join out "logs" in
  let w := workflow st in
  let made := makedirs_fs (mkdir_permitted env) (fs st) logs in
  let dir_ok := logs ∈ fs st \/ made.1 = true in
  let dirs := if bool_decide (logs ∈ fs st) then fs st else made.2 in
  wp (get_hardware_injection_segment_files env out path)
     (fun _ st' =>
        workflow st' = w /\ dir_ok /\
        exists exe db,
          cp_lookup (cp w) "executables" "hardware_injection_page" = Some exe /\
          cp_lookup (cp w) "workflow-segments" "segments-database-url" = Some db /\
          external_call_ok env (hwinjseg_command w exe db out path) = true /\
          fs st' = external_call_writes env (hwinjseg_command w exe db out path)
                     logs "hwinjseg-call" ∪ dirs)
     (fun e st' =>
        workflow st' = w /\
        match e with
        | OSError => ~ dir_ok /\ fs st' = dirs
        | NoSectionError | NoOptionError =>
            dir_ok /\ fs st' = dirs /\
            (cp_lookup (cp w) "executables" "hardware_injection_page" = None \/
             cp_lookup (cp w) "workflow-segments" "segments-database-url" = None)
        | CalledProcessError =>
            dir_ok /\
            exists exe db,
              cp_lookup (cp w) "executables" "hardware_injection_page" = Some exe /\
              cp_lookup (cp w) "workflow-segments" "segments-database-url" = Some db /\
              external_call_ok env (hwinjseg_command w exe db out path) = false /\
              fs st' = external_call_writes env (hwinjseg_command w exe db out path)
                         logs "hwinjseg-call" ∪ dirs
        | _ => False
        end)
     st.
Proof.
  intros logs w made dir_ok dirs. subst logs w made dir_ok dirs.
  unfold get_hardware_injection_segment_files.
  wp_run; decide_paths.
  all: rewrite ?foldl_snoc_map in *.
  all: unfold cp_lookup, hwinjseg_command.
  all: repeat match goal with H : _ !! _ = _ |- _ => rewrite H; clear H end.
  all: cbn [mbind option_bind].
  all: split_and!; try done.
  all: try (by left).
  all: try (by right).
  all: try (eexists _, _; split_and!;
            [eassumption | eassumption | eassumption | reflexivity]).
  all: try (by intros [? | ?]; [| congruence]).
Qed.

(** X6.  [get_hardware_injection_segment_files] never changes the workflow
    and removes nothing from the file system.  It returns exactly when the
    log directory [output_dir/logs] exists or [os.makedirs] can create it,
    the configuration names the executable and the segment database, and
    the command
    [exe --gps-start-time s --gps-end-time e --segment-db db --segment-dir
    output_dir --source-xml path --get-segment-list] followed by one
    [--<ifo>-injections] per detector, lower-cased and in the order of the
    detectors, succeeds; the failure of that command is the only source of
    [CalledProcessError], and [OSError] means the log directory was absent
    and could not be created.  Whenever the log directory exists or can be
    created it is there afterwards.  The file system afterwards is what the
    directory step left, the intermediate directories that [os.makedirs]
    made included, even when it failed, together with, when the command was
    run, whatever that call left with its logs directed to
    [output_dir/logs] under the name [hwinjseg-call], whether it succeeded
    or not. *)
Theorem get_hardware_injection_segment_files_outcome :
  forall env out path st,
    let logs := path_join out "logs" in
    let w := workflow st in
    let r := get_hardware_injection_segment_files env out path st in
    let made := makedirs_fs (mkdir_permitted env) (fs st) logs in
    let dir_ok := logs ∈ fs st \/ made.1 = true in
    let dirs := if bool_decide (logs ∈ fs st) then fs st else made.2 in
    let exe_is exe :=
      cp_lookup (cp w) "executables" "hardware_injection_page" = exe in
    let db_is db :=
      cp_lookup (cp w) "workflow-segments" "segments-database-url" = db in
    let called (ok : bool) :=
      exists exe db,
        exe_is (Some exe) /\ db_is (Some db) /\
        external_call_ok env (hwinjseg_command w exe db out path) = ok in
    workflow r.2 = w /\
    fs st ⊆ fs r.2 /\
    (r.1 = Ok tt <-> dir_ok /\ called true) /\
    (r.1 = Raise CalledProcessError <-> dir_ok /\ called false) /\
    (r.1 = Raise OSError <-> ~ dir_ok) /\
    (dir_ok -> logs ∈ fs r.2) /\
    (forall exe db,
        dir_ok -> exe_is (Some exe) -> db_is (Some db) ->
        fs r.2 = external_call_writes env (hwinjseg_command w exe db out path)
                   logs "hwinjseg-call" ∪ dirs) /\
    (~ dir_ok \/ exe_is None \/ db_is None -> fs r.2 = dirs).
Proof.
  intros env out path st logs w r made dir_ok dirs exe_is db_is called.
  pose proof (get_hardware_injection_segment_files_spec env out path st) as H.
  cbv zeta in H. unfold wp in H. fold logs w in H. fold made in H.
  fold dirs in H. subst r.
  assert (Hfun : forall ok ok', called ok -> called ok' -> ok = ok').
  { intros ok ok' (exe & db & He & Hd & Hc) (exe' & db' & He' & Hd' & Hc').
    unfold exe_is, db_is in *. congruence. }
  assert (Hdiff : forall ok ok', called ok -> called ok' -> ok <> ok' -> False)
    by (intros ok ok' H1 H2 Hne; by apply Hne, Hfun).
  assert (Hsub : fs st ⊆ dirs).
  { subst dirs. destruct (bool_decide (logs ∈ fs st)); [done |].
    apply makedirs_fs_mono. }
  assert (Hlogs : dir_ok -> logs ∈ dirs).
  { subst dirs. intros Hok.
    destruct (bool_decide (logs ∈ fs st)) eqn:Hex.
    - by apply bool_decide_eq_true in Hex.
    - apply bool_decide_eq_false in Hex. destruct Hok as [? | Hmade]; [done |].
      by apply makedirs_fs_ok. }
  assert (Hrun : forall ok st',
             dir_ok ->
             (exists exe db,
                 exe_is (Some exe) /\ db_is (Some db) /\
                 external_call_ok env (hwinjseg_command w exe db out path) = ok /\
                 fs st' = external_call_writes env (hwinjseg_command w exe db out path)
                            logs "hwinjseg-call" ∪ dirs) ->
             called ok /\ fs st ⊆ fs st' /\ logs ∈ fs st' /\
             (forall exe db,
                 dir_ok -> exe_is (Some exe) -> db_is (Some db) ->
                 fs st' = external_call_writes env (hwinjseg_command w exe db out path)
                            logs "hwinjseg-call" ∪ dirs) /\
             (~ dir_ok \/ exe_is None \/ db_is None -> fs st' = dirs)).
  { intros ok st1 Hok (exe & db & He & Hd & Hc & Hfs). split_and!.
    - by exists exe, db.
    - rewrite Hfs. set_solver.
    - rewrite Hfs. specialize (Hlogs Hok). set_solver.
    - intros exe' db' _ He' Hd'. unfold exe_is, db_is in *.
      by replace exe' with exe by congruence; replace db' with db by congruence.
    - unfold exe_is, db_is in *. intros [? | [? | ?]]; [done | congruence..]. }
  destruct (get_hardware_injection_segment_files env out path st)
    as [[[] | e] st']; cbn [fst snd].
  - destruct H as (Hw & Hdir & Hcall).
    destruct (Hrun true st' Hdir Hcall) as (Hc & Hmono & Hin & Hex & Hnone).
    split_and!; try done.
    all: split; [discriminate |].
    all: intros [_ Hc']; by destruct (Hdiff _ _ Hc Hc').
  - destruct H as (Hw & He). split; [done |].
    destruct e; try done.
    + destruct He as (Hnot & Hfs).
      split_and!; try done.
      * by rewrite Hfs.
      * split; [discriminate |]. by intros [? _].
      * split; [discriminate |]. by intros [? _].
    + destruct He as (Hdir & Hfs & Hnone).
      assert (Hnc : forall ok, ~ called ok).
      { intros ok (exe & db & He & Hd & _). unfold exe_is, db_is in *.
        destruct Hnone; congruence. }
      split_and!; try done.
      * by rewrite Hfs.
      * split; [discriminate |]. intros [_ Hc]. by destruct (Hnc _ Hc).
      * split; [discriminate |]. intros [_ Hc]. by destruct (Hnc _ Hc).
      * intros _. rewrite Hfs. by apply Hlogs.
      * intros exe db _ He Hd. unfold exe_is, db_is in *.
        destruct Hnone; congruence.
    + destruct He as (Hdir & Hfs & Hnone).
      assert (Hnc : forall ok, ~ called ok).
      { intros ok (exe & db & He & Hd & _). unfold exe_is, db_is in *.
        destruct Hnone; congruence. }
      split_and!; try done.
      * by rewrite Hfs.
      * split; [discriminate |]. intros [_ Hc]. by destruct (Hnc _ Hc).
      * split; [discriminate |]. intros [_ Hc]. by destruct (Hnc _ Hc).
      * intros _. rewrite Hfs. by apply Hlogs.
      * intros exe db _ He Hd. unfold exe_is, db_is in *.
        destruct Hnone; congruence.
    + destruct He as (Hdir & Hcall).
      destruct (Hrun false st' Hdir Hcall) as (Hc & Hmono & Hin & Hex & Hnone).
      split_and!; try done.
      all: split; [discriminate |].
      all: intros [_ Hc']; by destruct (Hdiff _ _ Hc Hc').
Qed.

Lemma get_hardware_injection_segment_files_outcome_witness :
  (get_hardware_injection_segment_files env_ok "summary" "summary/hwinj.xml"
     state_HL).1 = Ok tt.
Proof.
  apply (get_hardware_injection_segment_files_outcome
           env_ok "summary" "summary/hwinj.xml" state_HL).
  split; [right; vm_compute; reflexivity |].
  exists "/usr/bin/hwinj_page", "https://segments.example.org".
  split_and!; vm_compute; reflexivity.
Defined.

(** ** What the hardware injection page leaves behind *)

Lemma setup_hardware_injection_page_effects env fl cache pat out tags st :
  wp (setup_hardware_injection_page env fl cache pat out tags)
     (fun _ st' =>
        exists path,
          definer_file_recorded out tags (workflow st) st' path /\
          _adag (workflow st')
          = register_all (_adag (workflow st)) fl
                         [hwinj_node (workflow st) cache pat out tags path])
     (fun e st' =>
        match e with
        | IOError | ConfigError => workflow st' = workflow st
        | CalledProcessError =>
            exists path,
              definer_file_recorded out tags (workflow st) st' path /\
              _adag (workflow st') = _adag (workflow st)
        | _ => True
        end)
     st.
Proof.
  unfold setup_hardware_injection_page, get_hardware_injection_segment_files.
  wp_run; try done.
  all: cbn [workflow fs]; rewrite ?register_one_adag.
  all: rewrite ?(foldl_add_opt (fun ifo => "--" +:+ lower ifo +:+ "-injections")).
  all: eexists; split; [| reflexivity].
  all: eexists _, _; split_and!; [eassumption | reflexivity | eassumption
                                 | reflexivity | cbn [fs]; makedirs_facts; set_solver].
Qed.

(** ** The options every node carries *)

Lemma ends_with_refl (s : string) : ends_with s s = true.
Proof. destruct s; cbn [ends_with]; by rewrite String.eqb_refl. Qed.

Lemma ends_with_app_l (suffix a t : string) :
  ends_with suffix t = true -> ends_with suffix (a +:+ t) = true.
Proof.
  intros H. induction a as [|c a IH]; [done |].
  change (String c a +:+ t) with (String c (a +:+ t)).
  cbn [ends_with]. rewrite IH. apply orb_true_r.
Qed.

(** A per-detector flag differs from every flag without its suffix. *)
Lemma detector_flag_neq (flag s suffix : string) :
  ends_with suffix flag = false -> "--" +:+ s +:+ suffix <> flag.
Proof.
  intros H Heq. rewrite <- Heq in H.
  rewrite ends_with_app_l in H; [done |].
  apply ends_with_app_l, ends_with_refl.
Qed.

Lemma filter_flag_map_nil {X : Type} (f : X -> string) (v : option OptValue)
    (flag : string) (l : list X) :
  (forall x, f x <> flag) ->
  filter (fun o : string * option OptValue => o.1 = flag) (map (fun x => (f x, v)) l)
  = [].
Proof.
  intros H. induction l as [|x l IH]; [done |].
  cbn [map]. rewrite filter_cons, IH. cbn [fst].
  destruct (decide (f x = flag)) as [Heq | _]; [by apply H in Heq | done].
Qed.

Lemma opt_values_around_detectors exe outs pre post (f : string -> string)
    (v : option OptValue) (l : list string) (flag : string) :
  (forall x, f x <> flag) ->
  opt_values {| executable := exe;
                _options := pre ++ map (fun x => (f x, v)) l ++ post;
                _outputs := outs |} flag
  = opt_values {| executable := exe; _options := pre ++ post; _outputs := outs |} flag.
Proof.
  intros H. unfold opt_values. cbn [_options].
  by rewrite !filter_app, (filter_flag_map_nil f v flag l H).
Qed.


Lemma plotinspiral_node_common w cache pat out tags tag ifo :
  common_options w cache out (plotinspiral_node w cache pat out tags tag ifo).
Proof. by split_and!. Qed.

Lemma plotnumtemplates_node_common w cache bank out tags tag :
  common_options w cache out (plotnumtemplates_node w cache bank out tags tag).
Proof. by split_and!. Qed.

Lemma plotinspiralrange_node_common w cache bank pat out tags tag :
  common_options w cache out (plotinspiralrange_node w cache bank pat out tags tag).
Proof. by split_and!. Qed.

Lemma plotthinca_node_common w cache coinc slide out tags tag ifo_list :
  common_options w cache out
    (plotthinca_node w cache coinc slide out tags tag ifo_list).
Proof.
  unfold common_options, carries, plotthinca_node.
  rewrite !(opt_values_around_detectors _ _ _ _
              (fun ifo => "--" +:+ lower ifo +:+ "-triggers"))
    by (intros ifo; by apply detector_flag_neq).
  by split_and!.
Qed.

(** X7.  Every node created by a plot stage carries, exactly once each,
    the analysis window of the workflow as [--gps-start-time] and
    [--gps-end-time], the cache file as [--cache-file], the output
    directory as [--output-path] and the flag [--enable-output] without a
    value; for the coincidence stage no per-detector flag can shadow them,
    whatever the detectors are called. *)
Theorem plot_nodes_carry_common_options :
  (forall w fl cache pat out tags node,
      node ∈ (new_jobs w (setup_plotinspiral w fl cache pat out tags).2).*2 ->
      common_options w cache out node) /\
  (forall w fl cache bank out tags node,
      node ∈ (new_jobs w (setup_plotnumtemplates w fl cache bank out tags).2).*2 ->
      common_options w cache out node) /\
  (forall w fl cache coinc slide out tags node,
      node ∈ (new_jobs w (setup_plotthinca w fl cache coinc slide out tags).2).*2 ->
      common_options w cache out node) /\
  (forall w fl cache bank pat out tags node,
      node ∈ (new_jobs w (setup_plotinspiralrange w fl cache bank pat out tags).2).*2 ->
      common_options w cache out node).
Proof.
  split_and!.
  - intros w fl cache pat out tags node.
    rewrite setup_plotinspiral_eq. cbn [snd].
    erewrite new_jobs_nodes by reflexivity.
    intros (tag & _ & (ifo & _ & Hnode%list_elem_of_singleton)%elem_of_flat_map)%elem_of_flat_map.
    subst node. apply plotinspiral_node_common.
  - intros w fl cache bank out tags node.
    rewrite setup_plotnumtemplates_eq. cbn [snd].
    erewrite new_jobs_nodes by reflexivity.
    intros (tag & _ & Hnode%list_elem_of_singleton)%elem_of_flat_map.
    subst node. apply plotnumtemplates_node_common.
  - intros w fl cache coinc slide out tags node.
    rewrite setup_plotthinca_eq. cbn [snd].
    erewrite new_jobs_nodes by reflexivity.
    intros (tag & _ & (c & _ & Hnode%list_elem_of_singleton)%elem_of_flat_map)%elem_of_flat_map.
    subst node. apply plotthinca_node_common.
  - intros w fl cache bank pat out tags node.
    rewrite setup_plotinspiralrange_eq. cbn [snd].
    erewrite new_jobs_nodes by reflexivity.
    intros (tag & _ & Hnode%list_elem_of_singleton)%elem_of_flat_map.
    subst node. apply plotinspiralrange_node_common.
Qed.

Lemma plot_nodes_carry_common_options_witness :
  common_options workflow_HLV "ihope.cache" "summary"
    (plotthinca_node workflow_HLV "ihope.cache" "COINC" "SLIDE" "summary"
                     ["full_data"] "full_data" ["H1"; "L1"]).
Proof.
  destruct plot_nodes_carry_common_options as (_ & _ & H & _).
  apply (H workflow_HLV files_example "ihope.cache" "COINC" "SLIDE" "summary"
           ["full_data"]).
  vm_compute. apply list_elem_of_here.
Defined.

(** ** The definer file in the configuration, on disk and on the node *)

Lemma cp_lookup_recorded (c : gmap string (gmap string string))
    (section key value : string)
    (sec : gmap string string) :
  c !! section = Some sec ->
  let c' := <[section := <[key := value]> sec]> c in
  cp_lookup c' section key = Some value /\
  (forall s o, (s, o) <> (section, key) -> cp_lookup c' s o = cp_lookup c s o).
Proof.
  intros Hsec c'. subst c'. unfold cp_lookup, Config. split.
  - rewrite lookup_insert_eq. cbn [mbind option_bind]. apply lookup_insert_eq.
  - intros s o Hne. destruct (decide (s = section)) as [-> | Hs].
    + rewrite lookup_insert_eq, Hsec. cbn [mbind option_bind].
      apply lookup_insert_ne. congruence.
    + by rewrite lookup_insert_ne.
Qed.

Lemma hwinj_node_carries w cache pat out tags path :
  let node := hwinj_node w cache pat out tags path in
  carries node "--gps-start-time" (Some (VInt (analysis_time w).1)) /\
  carries node "--gps-end-time" (Some (VInt (analysis_time w).2)) /\
  carries node "--source-xml" (Some (VStr path)) /\
  carries node "--segment-dir" (Some (VStr out)) /\
  carries node "--cache-file" (Some (VStr cache)) /\
  carries node "--cache-pattern" (Some (VStr pat)).
Proof.
  intros node. subst node. unfold carries, hwinj_node.
  rewrite !(opt_values_around_detectors _ _ _ _
              (fun ifo => "--" +:+ lower ifo +:+ "-injections"))
    by (intros ifo; by apply detector_flag_neq).
  by split_and!.
Qed.

(** X8.  When [setup_hardware_injection_page] returns, the definer
    document of the configured URL has been fetched to
    [os.path.join(output_dir, os.path.basename(url))]; that path is what
    [hwinj-definer-file] of section [workflow-hardware-injections] now
    holds, what the one new node carries as [--source-xml], and it exists
    on disk; no other option of the configuration has changed; the node
    carries [output_dir] as [--segment-dir] and the analysis window; and
    the edges added are exactly one per input file, to that node. *)
Theorem hardware_injection_page_return_effects :
  forall env fl cache pat out tags st files st',
    setup_hardware_injection_page env fl cache pat out tags st = (Ok files, st') ->
    let w := workflow st in
    let w' := workflow st' in
    exists url node,
      lookup_opt_tags (cp w) "workflow-hardware-injections" "hwinj-definer-url" tags
      = Some url /\
      let path := path_join out (basename url) in
      cp_lookup (cp w') "workflow-hardware-injections" "hwinj-definer-file"
      = Some path /\
      (forall s o,
          (s, o) <> ("workflow-hardware-injections", "hwinj-definer-file") ->
          cp_lookup (cp w') s o = cp_lookup (cp w) s o) /\
      path ∈ fs st' /\
      (new_jobs w w').*2 = [node] /\
      carries node "--source-xml" (Some (VStr path)) /\
      carries node "--segment-dir" (Some (VStr out)) /\
      carries node "--gps-start-time" (Some (VInt (analysis_time w).1)) /\
      carries node "--gps-end-time" (Some (VInt (analysis_time w).2)) /\
      edges_exact fl w w'.
Proof.
  intros env fl cache pat out tags st files st' Hrun w w'. subst w w'.
  pose proof (setup_hardware_injection_page_effects env fl cache pat out tags st) as H.
  apply (wp_returns _ _ _ _ _ _ H) in Hrun
    as (path & (url & sec & Hurl & -> & Hsec & Hcp & Hfs) & Hreg).
  exists url, (hwinj_node (workflow st) cache pat out tags (path_join out (basename url))).
  pose proof (cp_lookup_recorded _ _ "hwinj-definer-file"
                (path_join out (basename url)) _ Hsec) as [Hget Hother].
  pose proof (hwinj_node_carries (workflow st) cache pat out tags
                (path_join out (basename url))) as (Hs & He & Hx & Hd & _).
  cbv zeta. rewrite Hcp. split_and!; try done.
  - by rewrite (new_jobs_nodes _ _ _ _ Hreg).
  - by eapply registered_edges_exact.
Qed.

Lemma hardware_injection_page_return_effects_witness :
  exists url,
    lookup_opt_tags (cp workflow_HL) "workflow-hardware-injections"
                    "hwinj-definer-url" [] = Some url /\
    cp_lookup
      (cp (workflow (setup_hardware_injection_page env_ok files_example
                       "ihope.cache" "INSPIRAL" "summary" [] state_HL).2))
      "workflow-hardware-injections" "hwinj-definer-file"
    = Some (path_join "summary" (basename url)).
Proof.
  destruct (hardware_injection_page_return_effects env_ok files_example
              "ihope.cache" "INSPIRAL" "summary" [] state_HL []
              (setup_hardware_injection_page env_ok files_example
                 "ihope.cache" "INSPIRAL" "summary" [] state_HL).2)
    as (url & node & Hurl & Hget & _).
  - vm_compute. reflexivity.
  - exists url. split; [exact Hurl | exact Hget].
Defined.

(** X9.  [setup_hardware_injection_page] does not undo what it did before
    a failure.  If the definer document cannot be fetched ([ConfigError]
    for a missing URL, [IOError] from the retrieval) the workflow is
    exactly as before.  If the segment query program fails
    ([CalledProcessError]) no node or edge was added, but the document has
    already been written to disk and [hwinj-definer-file] of the
    configuration already names it. *)
Theorem hardware_injection_page_failure_effects :
  forall env fl cache pat out tags st,
    let r := setup_hardware_injection_page env fl cache pat out tags st in
    let w := workflow st in
    (r.1 = Raise IOError \/ r.1 = Raise ConfigError -> workflow r.2 = w) /\
    (r.1 = Raise CalledProcessError ->
     exists url,
       lookup_opt_tags (cp w) "workflow-hardware-injections" "hwinj-definer-url" tags
       = Some url /\
       cp_lookup (cp (workflow r.2)) "workflow-hardware-injections"
                 "hwinj-definer-file"
       = Some (path_join out (basename url)) /\
       path_join out (basename url) ∈ fs r.2 /\
       _adag (workflow r.2) = _adag w).
Proof.
  intros env fl cache pat out tags st r w. subst r w.
  pose proof (setup_hardware_injection_page_effects env fl cache pat out tags st) as H.
  unfold wp in H.
  destruct (setup_hardware_injection_page env fl cache pat out tags st)
    as [[files | e] st']; cbn [fst snd].
  - split; [intros [? | ?]; discriminate | discriminate].
  - split.
    + intros [[= ->] | [= ->]]; exact H.
    + intros [= ->].
      destruct H as (path & (url & sec & Hurl & -> & Hsec & Hcp & Hfs) & Hadag).
      exists url. rewrite Hcp. split_and!; try done.
      by apply cp_lookup_recorded.
Qed.

Lemma hardware_injection_page_failure_effects_witness :
  exists url,
    cp_lookup
      (cp (workflow (setup_hardware_injection_page env_query_fails files_example
                       "ihope.cache" "INSPIRAL" "summary" [] state_HL).2))
      "workflow-hardware-injections" "hwinj-definer-file"
    = Some (path_join "summary" (basename url)) /\
    _adag (workflow (setup_hardware_injection_page env_query_fails files_example
                       "ihope.cache" "INSPIRAL" "summary" [] state_HL).2)
    = _adag workflow_HL.
Proof.
  destruct (hardware_injection_page_failure_effects env_query_fails files_example
              "ihope.cache" "INSPIRAL" "summary" [] state_HL) as [_ H].
  destruct H as (url & _ & Hget & _ & Hadag); [vm_compute; reflexivity |].
  exists url. split; [exact Hget | exact Hadag].
Defined.

(** ** The order of the nodes of the single-detector stage *)

Lemma map_flat_map_pairs {X Y Z V : Type} (f : X -> Y -> Z) (g : Z -> V)
    (ys : list Y) (xs : list X) :
  map g (flat_map (fun x => flat_map (fun y => [f x y]) ys) xs)
  = flat_map (fun x => map (fun y => g (f x y)) ys) xs.
Proof.
  induction xs as [|x xs IH]; [done |].
  cbn [flat_map]. rewrite map_app, IH. f_equal.
  clear. induction ys as [|y ys IH]; [done |]. cbn. by rewrite IH.
Qed.

(** X10.  [setup_plotinspiral] creates one node for every pair of a tag
    and a detector, tag after tag and, within a tag, in the order of the
    detectors.  The node of a pair carries the upper-cased tag followed by
    [_SUMMARY_PLOTS] as [--user-tag], and the detector identifier as it is
    given, without case normalization, as [--ifo-times] and, behind
    [FIRST_], as [--ifo-tag]. *)
Theorem plotinspiral_nodes_by_tag_then_detector :
  forall w fl cache pat out tags,
    map (fun node => (opt_values node "--user-tag",
                      opt_values node "--ifo-times",
                      opt_values node "--ifo-tag"))
        (new_jobs w (setup_plotinspiral w fl cache pat out tags).2).*2
    = flat_map (fun tag =>
        map (fun ifo => ([Some (VStr (upper tag +:+ "_SUMMARY_PLOTS"))],
                         [Some (VStr ifo)],
                         [Some (VStr ("FIRST_" +:+ ifo))]))
            (ifos w)) tags.
Proof.
  intros w fl cache pat out tags.
  rewrite setup_plotinspiral_eq. cbn [snd].
  erewrite new_jobs_nodes by reflexivity.
  unfold plotinspiral_nodes.
  by rewrite (map_flat_map_pairs
                (plotinspiral_node w cache pat out tags)).
Qed.

(** ** Where the definer document is stored *)













(** ** Calling a stage again *)

(** X12.  No plot stage looks at the nodes the workflow already has: a
    second call with the same arguments, on the workflow the first call
    left, registers the same nodes once more, in the same order, and adds
    the same number of edges again. *)
Theorem plot_stages_register_again :
  (forall w fl cache pat out tags,
      let w1 := (setup_plotinspiral w fl cache pat out tags).2 in
      let w2 := (setup_plotinspiral w1 fl cache pat out tags).2 in
      (new_jobs w1 w2).*2 = (new_jobs w w1).*2 /\
      length (jobs (_adag w2))
      = length (jobs (_adag w)) + 2 * length (new_jobs w w1) /\
      length (dependencies (_adag w2))
      = length (dependencies (_adag w)) + 2 * length (new_dependencies w w1)) /\
  (forall w fl cache bank out tags,
      let w1 := (setup_plotnumtemplates w fl cache bank out tags).2 in
      let w2 := (setup_plotnumtemplates w1 fl cache bank out tags).2 in
      (new_jobs w1 w2).*2 = (new_jobs w w1).*2 /\
      length (jobs (_adag w2))
      = length (jobs (_adag w)) + 2 * length (new_jobs w w1) /\
      length (dependencies (_adag w2))
      = length (dependencies (_adag w)) + 2 * length (new_dependencies w w1)) /\
  (forall w fl cache coinc slide out tags,
      let w1 := (setup_plotthinca w fl cache coinc slide out tags).2 in
      let w2 := (setup_plotthinca w1 fl cache coinc slide out tags).2 in
      (new_jobs w1 w2).*2 = (new_jobs w w1).*2 /\
      length (jobs (_adag w2))
      = length (jobs (_adag w)) + 2 * length (new_jobs w w1) /\
      length (dependencies (_adag w2))
      = length (dependencies (_adag w)) + 2 * length (new_dependencies w w1)) /\
  (forall w fl cache bank pat out tags,
      let w1 := (setup_plotinspiralrange w fl cache bank pat out tags).2 in
      let w2 := (setup_plotinspiralrange w1 fl cache bank pat out tags).2 in
      (new_jobs w1 w2).*2 = (new_jobs w w1).*2 /\
      length (jobs (_adag w2))
      = length (jobs (_adag w)) + 2 * length (new_jobs w w1) /\
      length (dependencies (_adag w2))
      = length (dependencies (_adag w)) + 2 * length (new_dependencies w w1)).
Proof.
  assert (Hgen : forall w w1 w2 fl nodes,
             _adag w1 = register_all (_adag w) fl nodes ->
             _adag w2 = register_all (_adag w1) fl nodes ->
             (new_jobs w1 w2).*2 = (new_jobs w w1).*2 /\
             length (jobs (_adag w2))
             = length (jobs (_adag w)) + 2 * length (new_jobs w w1) /\
             length (dependencies (_adag w2))
             = length (dependencies (_adag w)) + 2 * length (new_dependencies w w1)).
  { intros w w1 w2 fl nodes H1 H2.
    pose proof (registered_parents_linked _ _ _ _ H1) as (Hj1 & Hd1 & _).
    pose proof (registered_parents_linked _ _ _ _ H2) as (Hj2 & Hd2 & _).
    rewrite Hj2, Hd2, Hj1, Hd1, !length_app.
    rewrite (new_jobs_nodes _ _ _ _ H1), (new_jobs_nodes _ _ _ _ H2).
    rewrite (new_dependencies_length _ _ _ _ H1), (new_dependencies_length _ _ _ _ H2).
    rewrite (new_jobs_length _ _ _ _ H1), (new_jobs_length _ _ _ _ H2).
    split_and!; [done | lia | lia]. }
  split_and!; intros; subst w1 w2.
  - rewrite !setup_plotinspiral_eq. cbn [snd]. by eapply Hgen.
  - rewrite !setup_plotnumtemplates_eq. cbn [snd]. by eapply Hgen.
  - rewrite !setup_plotthinca_eq. cbn [snd]. by eapply Hgen.
  - rewrite !setup_plotinspiralrange_eq. cbn [snd]. by eapply Hgen.
Qed.
